(** * Shallow embedding of the MCMC item-response-theory notebook
      [overton_irt_mcmc.py] (Bayesian bake-off, team MCMC).

    The notebook builds a long observation table from a wide survey matrix
    ([long_q]), encodes identifiers with [pd.Categorical], declares four
    PyMC models [m1] .. [m4] over the encoded table, and runs forward
    (posterior-predictive) simulations [pp1] .. [pp42] with
    [pm.sample_posterior_predictive].

    Real-valued quantities are modelled with the Standard Library reals;
    identifiers and integer codes with [Z] (pandas codes are signed, with
    [-1] as the missing sentinel); question names with [string]. *)

From Stdlib Require Import List ZArith Reals Lra Lia Bool Ascii String Sorted.
Import ListNotations.
Open Scope string_scope.
Open Scope Z_scope.

(* ------------------------------------------------------------------ *)
(** ** Python / NumPy style integer indexing *)

(** [xs[i]] for a Python list or a NumPy vector: non-negative indices
    below the length select, negative indices down to [-len] count from
    the end, anything else raises [IndexError] ([None]). *)
Definition py_index {A : Type} (xs : list A) (i : Z) : option A :=
  let n := Z.of_nat (List.length xs) in
  if (0 <=? i) && (i <? n) then nth_error xs (Z.to_nat i)
  else if (- n <=? i) && (i <? 0) then nth_error xs (Z.to_nat (n + i))
  else None.

(* ------------------------------------------------------------------ *)
(** ** Categorical encoder: [pd.Categorical(values)] *)

Section Encoder.
Context {A : Type} (eqb : A -> A -> bool) (ltb : A -> A -> bool).

(** Insert a value into the (sorted, duplicate-free) category list. *)
Fixpoint ins_cat (x : A) (cats : list A) : list A :=
  match cats with
  | [] => [x]
  | y :: t =>
      if eqb x y then cats
      else if ltb x y then x :: cats
      else y :: ins_cat x t
  end.

(** [pd.Categorical(values).categories]: the distinct values, sorted. *)
Definition categories (values : list A) : list A :=
  fold_left (fun acc x => ins_cat x acc) values [].

Fixpoint index_of (x : A) (cats : list A) : option nat :=
  match cats with
  | [] => None
  | y :: t =>
      if eqb x y then Some O
      else match index_of x t with Some i => Some (S i) | None => None end
  end.

(** The code of one value: its position among the categories, or the
    sentinel [-1] when it is not a category. *)
Definition code_of (cats : list A) (x : A) : Z :=
  match index_of x cats with
  | Some i => Z.of_nat i
  | None => -1
  end.

(** [pd.Categorical(values).codes]. *)
Definition cat_codes (values : list A) : list Z :=
  map (code_of (categories values)) values.

(** Decoding a code is indexing the categories: [cat.categories[code]]. *)
Definition decode (cats : list A) (code : Z) : option A := py_index cats code.

End Encoder.

(* ------------------------------------------------------------------ *)
(** ** Observation table builder: [long_q] *)

(** One row of the wide table [q]: the index ([id]), the survey year, and
    one cell per question column ([1.0], [0.0] or [NaN]). *)
Record Row := mkRow {
  row_id : Z;
  row_year : Z;
  row_cells : list (option bool)
}.

(** The wide table: its question columns ([q.columns[:-2]]) and its rows. *)
Record Wide := mkWide {
  w_questions : list string;
  w_rows : list Row
}.

(** A row of the long table after the join with [q["year"]]. *)
Record LongRow := mkLong {
  l_id : Z;
  l_question : string;
  l_answer : bool;
  l_year : Z
}.

Definition cell (r : Row) (j : nat) : option bool :=
  match nth_error (row_cells r) j with Some c => c | None => None end.

(** [pd.melt(q, value_vars=questions, id_vars=["id"])]: the value columns
    are stacked one after the other, each over all rows. *)
Definition melt (W : Wide) : list (Z * string * option bool) :=
  flat_map
    (fun '(j, qn) => map (fun r => (row_id r, qn, cell r j)) (w_rows W))
    (combine (seq 0 (List.length (w_questions W))) (w_questions W)).

(** [.dropna()]: only the observed cells remain. *)
Definition dropna (m : list (Z * string * option bool)) : list (Z * string * bool) :=
  flat_map
    (fun '(i, qn, c) => match c with Some a => [(i, qn, a)] | None => [] end) m.

(** [.sort_values(by="id")].  pandas' default quicksort does not fix the
    order of rows sharing an id; a stable insertion sort is one of the
    orders it may produce. *)
Fixpoint ins_by_id (x : Z * string * bool) (l : list (Z * string * bool)) :=
  match l with
  | [] => [x]
  | y :: t =>
      let '(i, _, _) := x in
      let '(j, _, _) := y in
      if i <=? j then x :: l else y :: ins_by_id x t
  end.

Definition sort_by_id (l : list (Z * string * bool)) : list (Z * string * bool) :=
  fold_right ins_by_id [] l.

(** [q["year"]] looked up by id (the join key).  Every id of the long
    table is the id of a row, so the fallback is never taken. *)
Definition year_of (W : Wide) (i : Z) : Z :=
  match find (fun r => row_id r =? i) (w_rows W) with
  | Some r => row_year r
  | None => 0
  end.

(** [long_q = melt(...).dropna().sort_values(by="id").join(q["year"], on="id")]. *)
Definition long_q (W : Wide) : list LongRow :=
  map (fun '(i, qn, a) => mkLong i qn a (year_of W i))
      (sort_by_id (dropna (melt W))).

(** The three encoders of the notebook. *)
Definition id_cats (L : list LongRow) : list Z := categories Z.eqb Z.ltb (map l_id L).
Definition q_cats (L : list LongRow) : list string :=
  categories String.eqb String.ltb (map l_question L).
Definition q_year_cats (L : list LongRow) : list Z := categories Z.eqb Z.ltb (map l_year L).

(** An observation as the models see it: the codes [id_cat.codes[k]],
    [q_cat.codes[k]], [q_year_cat.codes[k]] and the answer of row [k]. *)
Record Obs := mkObs {
  o_r : Z;
  o_q : Z;
  o_y : Z;
  o_ans : bool
}.

Definition obs_table (L : list LongRow) : list Obs :=
  map (fun l => mkObs (code_of Z.eqb (id_cats L) (l_id l))
                      (code_of String.eqb (q_cats L) (l_question l))
                      (code_of Z.eqb (q_year_cats L) (l_year l))
                      (l_answer l)) L.

(** [long_q.groupby("id")["year"].first()]: one entry per id, in sorted id
    order, holding the year of the id's first row. *)
Definition id_first_years (L : list LongRow) : list Z :=
  map (fun i => match find (fun l => l_id l =? i) L with
                | Some l => l_year l
                | None => 0
                end) (id_cats L).

(** [id_year_cat = pd.Categorical(long_q.groupby("id")["year"].first())]. *)
Definition id_year_cats (L : list LongRow) : list Z :=
  categories Z.eqb Z.ltb (id_first_years L).
Definition id_year_codes (L : list LongRow) : list Z :=
  cat_codes Z.eqb Z.ltb (id_first_years L).

(** A small wide table used by the examples below: respondent 7 answered
    two questions in 1990, respondent 3 one question in 1972, respondent 5
    none in 2000. *)
Definition W_ex : Wide :=
  mkWide ["abany"; "cappun"]
    [ mkRow 7 1990 [Some true; Some false];
      mkRow 3 1972 [None; Some true];
      mkRow 5 2000 [None; None] ].

(* ------------------------------------------------------------------ *)
(** ** The model family [m1] .. [m4] *)

Open Scope R_scope.

Inductive Model := M1 | M2 | M3 | M4.

(** A binding of the latent parameters of the four models (a point of the
    posterior): [d] (question), [e] (respondent), [e_std],
    [conservatism_year_effect], [polarization_year_zero] and
    [polarization_year_effect]. *)
Record Params := mkParams {
  p_d : list R;
  p_e : list R;
  p_e_std : R;
  p_cye : R;
  p_pyz : R;
  p_pye : R
}.

(** The linear predictor of one observation:
    [e[id_cat.codes] - d[q_cat.codes]] in [m1] and [m2],
    [e[id_cat.codes] + conservatism_year_effect * q_year_cat.codes - d[q_cat.codes]]
    in [m3] and [m4].  Indexing follows NumPy ([py_index]). *)
Definition logit_p (m : Model) (P : Params) (o : Obs) : option R :=
  match py_index (p_e P) (o_r o), py_index (p_d P) (o_q o) with
  | Some er, Some dq =>
      Some (match m with
            | M1 | M2 => er - dq
            | M3 | M4 => er + p_cye P * IZR (o_y o) - dq
            end)
  | _, _ => None
  end.

Definition invlogit (x : R) : R := / (1 + exp (- x)).

(** Probability mass of one observed answer under [pm.Bernoulli(logit_p=x)]. *)
Definition bern_pmf (a : bool) (x : R) : R :=
  if a then invlogit x else 1 - invlogit x.

(** The observed node [response]: the answers are independent Bernoulli
    draws, so the likelihood is the product over the observation table. *)
Fixpoint likelihood (m : Model) (P : Params) (T : list Obs) : option R :=
  match T with
  | [] => Some 1
  | o :: t =>
      match logit_p m P o, likelihood m P t with
      | Some x, Some l => Some (bern_pmf (o_ans o) x * l)
      | _, _ => None
      end
  end.

(** Prior declarations.  A normal prior carries the scale of each element
    of the (vector) parameter as a function of the other parameters. *)
Inductive Dist :=
| Normal (mu : R) (sigma : Params -> nat -> R)
| HalfNormal (sigma : R).

Record Decl := mkDecl {
  dname : string;
  ddist : Dist;
  ddims : list string
}.

(** [e_std = pm.math.exp(polarization_year_zero + polarization_year_effect * id_year_cat.codes)]. *)
Definition m4_e_std (iyc : list Z) (P : Params) (r : nat) : R :=
  exp (p_pyz P + p_pye P * IZR (nth r iyc 0%Z)).

(** The free random variables declared by each model, in declaration
    order; [iyc] is [id_year_cat.codes] (used by [m4] only).  [pm.Normal]
    without arguments is a standard normal. *)
Definition decls (m : Model) (iyc : list Z) : list Decl :=
  mkDecl "d" (Normal 0 (fun _ _ => 1)) ["question"] ::
  match m with
  | M1 => [ mkDecl "e" (Normal 0 (fun _ _ => 4)) ["respondent"] ]
  | M2 => [ mkDecl "e_std" (HalfNormal 4) [];
            mkDecl "e" (Normal 0 (fun P _ => p_e_std P)) ["respondent"] ]
  | M3 => [ mkDecl "e_std" (HalfNormal 4) [];
            mkDecl "e" (Normal 0 (fun P _ => p_e_std P)) ["respondent"];
            mkDecl "conservatism_year_effect" (Normal 0 (fun _ _ => 1)) [] ]
  | M4 => [ mkDecl "polarization_year_zero" (Normal 0 (fun _ _ => 1)) [];
            mkDecl "polarization_year_effect" (Normal 0 (fun _ _ => 1)) [];
            mkDecl "e" (Normal 0 (m4_e_std iyc)) ["respondent"];
            mkDecl "conservatism_year_effect" (Normal 0 (fun _ _ => 1)) [] ]
  end.

Definition find_decl (name : string) (ds : list Decl) : option Decl :=
  find (fun dc => String.eqb (dname dc) name) ds.

(** A model as it is built by the notebook from the long table [L]. *)
Definition model_decls (m : Model) (L : list LongRow) : list Decl :=
  decls m (id_year_codes L).

(* ------------------------------------------------------------------ *)
(** ** Forward simulation: [pm.sample_posterior_predictive]

    A simulation model is a list of nodes in declaration (topological)
    order.  Values are flattened tensors (row-major).  For one posterior
    draw (the [trace]: the posterior group's variables at that draw) PyMC
    marks a node volatile when it is requested in [var_names], when it is a
    random variable absent from the trace, or when one of its inputs is
    volatile.  Volatile nodes are recomputed (random variables redrawn);
    the others take their value from the trace when they are in it and are
    recomputed from their inputs otherwise.  No data containers are used
    by the notebook, so PyMC's shared-variable rule never applies.

    Randomness is a noise source per random variable and element; a
    normal draw is [mu + sigma * z], a Bernoulli draw compares a uniform
    [z] with the success probability. *)

Definition Val := list R.

Inductive Kind :=
| RV (draw : list Val -> (nat -> R) -> Val)
| Det (f : list Val -> Val).

Record Node := mkNode {
  nname : string;
  ninputs : list string;
  nkind : Kind
}.

Definition Env := list (string * Val).

Fixpoint lookup (k : string) (env : Env) : option Val :=
  match env with
  | [] => None
  | (k', v) :: t => if String.eqb k k' then Some v else lookup k t
  end.

(** The posterior's value of a variable at the current draw. *)
Definition trace_val (trace : Env) (k : string) : option Val := lookup k trace.

Definition get (env : Env) (k : string) : Val :=
  match lookup k env with Some v => v | None => [] end.

Definition mem (k : string) (ks : list string) : bool := existsb (String.eqb k) ks.

Definition is_rv (n : Node) : bool :=
  match nkind n with RV _ => true | Det _ => false end.

Definition compute_node (n : Node) (env : Env) (noise : string -> nat -> R) : Val :=
  match nkind n with
  | RV dr => dr (map (get env) (ninputs n)) (noise (nname n))
  | Det f => f (map (get env) (ninputs n))
  end.

Fixpoint forward_from (outputs : list string) (trace : Env) (noise : string -> nat -> R)
    (nodes : list Node) (env : Env) (vol : list string) : Env :=
  match nodes with
  | [] => env
  | n :: rest =>
      let in_trace := match trace_val trace (nname n) with Some _ => true | None => false end in
      let volatile :=
        mem (nname n) outputs || (is_rv n && negb in_trace)
        || existsb (fun i => mem i vol) (ninputs n) in
      let v :=
        if volatile then compute_node n env noise
        else match trace_val trace (nname n) with
             | Some v => v
             | None => compute_node n env noise
             end in
      forward_from outputs trace noise rest ((nname n, v) :: env)
        (if volatile then nname n :: vol else vol)
  end.

(** All node values computed for one draw. *)
Definition forward (nodes : list Node) (outputs : list string) (trace : Env)
    (noise : string -> nat -> R) : Env :=
  forward_from outputs trace noise nodes [] [].

(** The predictions group for one draw: the requested variables. *)
Definition sample_pp (nodes : list Node) (outputs : list string) (trace : Env)
    (noise : string -> nat -> R) : list (string * Val) :=
  let env := forward nodes outputs trace noise in
  map (fun o => (o, get env o)) outputs.

(** Distributions. *)
Definition normal_draw (n : nat) (mu sigma : nat -> R) (z : nat -> R) : Val :=
  map (fun i => mu i + sigma i * z i) (seq 0 n).

Definition halfnormal_draw (s : R) (z : nat -> R) : Val := [s * Rabs (z O)].

Definition bernoulli_logit_draw (lg : Val) (z : nat -> R) : Val :=
  map (fun i => if Rlt_dec (z i) (invlogit (nth i lg 0)) then 1 else 0)
      (seq 0 (List.length lg)).

(** A scalar variable's value. *)
Definition sc (v : Val) : R := nth 0 v 0.

(** An [a x b] matrix [f i j], flattened row-major; [mat_at] reads it. *)
Definition outer (a b : nat) (f : nat -> nat -> R) : Val :=
  flat_map (fun i => map (fun j => f i j) (seq 0 b)) (seq 0 a).

Definition mat_at (m : Val) (b i j : nat) : R := nth (i * b + j) m 0.

(** [response.sum(axis=-1)] of an [a x b] matrix. *)
Definition row_sums (a b : nat) (m : Val) : Val :=
  map (fun i => fold_right Rplus 0 (map (fun j => mat_at m b i j) (seq 0 b))) (seq 0 a).

Definition std_normal_node (name : string) (n : nat) : Node :=
  mkNode name [] (RV (fun _ z => normal_draw n (fun _ => 0) (fun _ => 1) z)).

(** *** Resample mode: [pp1], [pp2], [pp3], [pp4]

    [sigma_e] is the scale declared for [e] in the simulation model (4 in
    [pp1] .. [pp3], 1 in [pp4]); [trend] is [Some sorted_years_cat.codes]
    when the model carries [conservatism_year_effect] ([pp3], [pp4]). *)
Definition resample_nodes (sigma_e : R) (trend : option (list Z)) (n_r n_q : nat) : list Node :=
  [ std_normal_node "d" n_q;
    mkNode "e" [] (RV (fun _ z => normal_draw n_r (fun _ => 0) (fun _ => sigma_e) z)) ] ++
  match trend with
  | None =>
      [ mkNode "logit_p" ["e"; "d"]
          (Det (fun ins => let e := nth 0 ins [] in let d := nth 1 ins [] in
                outer n_r n_q (fun r q => nth r e 0 - nth q d 0))) ]
  | Some ycodes =>
      [ std_normal_node "conservatism_year_effect" 1;
        mkNode "logit_p" ["e"; "conservatism_year_effect"; "d"]
          (Det (fun ins =>
                  let e := nth 0 ins [] in let c := nth 1 ins [] in let d := nth 2 ins [] in
                  outer n_r n_q (fun r q => (nth r e 0 + sc c * IZR (nth r ycodes 0%Z)) - nth q d 0))) ]
  end ++
  [ mkNode "response" ["logit_p"] (RV (fun ins z => bernoulli_logit_draw (nth 0 ins []) z));
    mkNode "response_sum" ["response"] (Det (fun ins => row_sums n_r n_q (nth 0 ins []))) ].

Definition pp2_nodes (n_r n_q : nat) : list Node := resample_nodes 4 None n_r n_q.
Definition pp4_nodes (sorted_years_codes : list Z) (n_r n_q : nat) : list Node :=
  resample_nodes 1 (Some sorted_years_codes) n_r n_q.

(** *** Forecast (new respondent) mode: [pp32] and [pp42] *)

(** [pp32]: one scalar [e_new ~ Normal(0, e_std)], a year grid
    [np.arange(len(q_year_cat.categories))]. *)
Definition pp32_nodes (n_y n_q : nat) : list Node :=
  [ std_normal_node "d" n_q;
    mkNode "e_std" [] (RV (fun _ z => halfnormal_draw 4 z));
    mkNode "e_new" ["e_std"]
      (RV (fun ins z => normal_draw 1 (fun _ => 0) (fun _ => sc (nth 0 ins [])) z));
    std_normal_node "conservatism_year_effect" 1;
    mkNode "logit_p" ["e_new"; "conservatism_year_effect"; "d"]
      (Det (fun ins =>
              let en := nth 0 ins [] in let c := nth 1 ins [] in let d := nth 2 ins [] in
              outer n_y n_q (fun y q => sc en + sc c * INR y - nth q d 0)));
    mkNode "p" ["logit_p"] (Det (fun ins => map invlogit (nth 0 ins [])));
    mkNode "response" ["logit_p"] (RV (fun ins z => bernoulli_logit_draw (nth 0 ins []) z)) ].

(** [pp42]: [e_new ~ Normal(0, e_std)] with [dims=("year",)], where
    [e_std = exp(polarization_year_zero + polarization_year_effect * id_years)],
    [id_years = np.arange(len(id_year_cat.categories))] ([n_iy] entries) and
    the grid rows are [q_years = np.arange(len(q_year_cat.categories))]
    ([n_qy] entries); NumPy broadcasting needs [n_iy = n_qy]. *)
Definition pp42_nodes (n_iy n_qy n_q : nat) : list Node :=
  [ std_normal_node "d" n_q;
    std_normal_node "polarization_year_zero" 1;
    std_normal_node "polarization_year_effect" 1;
    mkNode "e_std" ["polarization_year_zero"; "polarization_year_effect"]
      (Det (fun ins =>
              let a := nth 0 ins [] in let b := nth 1 ins [] in
              map (fun y => exp (sc a + sc b * INR y)) (seq 0 n_iy)));
    mkNode "e_new" ["e_std"]
      (RV (fun ins z => let s := nth 0 ins [] in
                        normal_draw n_iy (fun _ => 0) (fun i => nth i s 0) z));
    std_normal_node "conservatism_year_effect" 1;
    mkNode "logit_p" ["e_new"; "conservatism_year_effect"; "d"]
      (Det (fun ins =>
              let en := nth 0 ins [] in let c := nth 1 ins [] in let d := nth 2 ins [] in
              outer n_qy n_q (fun y q => nth y en 0 + sc c * INR y - nth q d 0)));
    mkNode "p" ["logit_p"] (Det (fun ins => map invlogit (nth 0 ins [])));
    mkNode "response" ["logit_p"] (RV (fun ins z => bernoulli_logit_draw (nth 0 ins []) z)) ].

Definition forecast_outputs : list string := ["e_new"; "p"; "response"].

(** Increasing the difficulty of question [q] by [delta]. *)
Fixpoint add_at (xs : list R) (q : nat) (delta : R) : list R :=
  match xs, q with
  | [], _ => []
  | x :: t, O => (x + delta) :: t
  | x :: t, S q' => x :: add_at t q' delta
  end.

Definition bump_d (P : Params) (q : nat) (delta : R) : Params :=
  mkParams (add_at (p_d P) q delta) (p_e P) (p_e_std P) (p_cye P) (p_pyz P) (p_pye P).

(** The value of [xs[i]] when it exists. *)
Definition py_get (xs : list R) (i : Z) : R :=
  match py_index xs i with Some x => x | None => 0 end.

(** The codes of an observation resolve in the parameter vectors. *)
Definition in_coords (P : Params) (o : Obs) : Prop :=
  py_index (p_e P) (o_r o) <> None /\ py_index (p_d P) (o_q o) <> None.

(** One observation of the long table, encoded as in [obs_table]. *)
Definition obs_of (L : list LongRow) (l : LongRow) : Obs :=
  mkObs (code_of Z.eqb (id_cats L) (l_id l))
        (code_of String.eqb (q_cats L) (l_question l))
        (code_of Z.eqb (q_year_cats L) (l_year l))
        (l_answer l).

(** A variable taken from the trace when it is there, else computed. *)
Definition trace_or (trace : Env) (k : string) (dflt : Val) : Val :=
  match trace_val trace k with Some v => v | None => dflt end.

(** A posterior draw holding every forecast hyper-parameter, and the
    all-zero noise source. *)
Definition trace_ex : Env :=
  [ ("d", [0; 0]); ("e_std", [1]); ("polarization_year_zero", [0]);
    ("polarization_year_effect", [0]); ("conservatism_year_effect", [0]) ].

Definition noise0 : string -> nat -> R := fun _ _ => 0.

(** A noise source whose successive draws differ. *)
Definition noise_seq : string -> nat -> R := fun _ i => INR i + 1.

(** The id of a melted cell, the key of [sort_values(by="id")]. *)
Definition key3 (x : Z * string * bool) : Z := fst (fst x).

(** [W_ex] where respondent 7 left its second question unanswered. *)
Definition W_ex2 : Wide :=
  mkWide ["abany"; "cappun"]
    [ mkRow 7 1990 [Some true; None];
      mkRow 3 1972 [None; Some true];
      mkRow 5 2000 [None; None] ].

(** Whether cell [j] of a row holds an answer. *)
Definition observed (R : Row) (j : nat) : bool :=
  match cell R j with Some _ => true | None => false end.

Open Scope Z_scope.

(* ------------------------------------------------------------------ *)
(** ** [download(url)]

    The file system is the list of existing file names; the fetch log
    records the URLs passed to [urlretrieve]. *)

(** [os.path.basename]: the text after the last ['/']. *)
Fixpoint basename_from (s acc : string) : string :=
  match s with
  | EmptyString => acc
  | String c t =>
      if Ascii.eqb c "/"%char then basename_from t EmptyString
      else basename_from t (acc ++ String c EmptyString)
  end.

Definition basename (url : string) : string := basename_from url EmptyString.

Record FS := mkFS {
  fs_files : list string;
  fs_fetched : list string
}.

(** [os.path.exists(filename)]: the empty path never exists. *)
Definition exists_file (fs : FS) (filename : string) : bool :=
  negb (String.eqb filename EmptyString) && mem filename (fs_files fs).

(** [download(url)]: fetch [url] into [basename(url)] unless that file
    exists; return the file name.  [urlretrieve(url, filename)] writes to
    [filename] when it is non-empty and to a fresh temporary file (outside
    the working directory) when it is empty. *)
Definition download (url : string) (fs : FS) : string * FS :=
  let filename := basename url in
  if exists_file fs filename then (filename, fs)
  else (filename,
        mkFS (if String.eqb filename EmptyString then fs_files fs else filename :: fs_files fs)
             (fs_fetched fs ++ [url])).

(* ------------------------------------------------------------------ *)
(** ** Birth-cohort decades: [gss['cohort10']]

    [bins = np.arange(1889, 2011, 10)], [labels = bins[:-1] + 1];
    [pd.cut(gss['cohort'], bins, labels=labels)] puts a value in the
    right-closed interval [(b_k, b_(k+1)]] and labels it [b_k + 1]; values
    outside every interval (and missing cohorts) become [NaN], and
    [gss.dropna(subset=['cohort10'])] drops those rows.  Birth years are
    whole numbers. *)
Definition bins : list Z := map (fun k => 1889 + 10 * Z.of_nat k) (seq 0 13).
Definition labels : list Z := map (fun b => b + 1) (removelast bins).

Fixpoint cut_from (edges labs : list Z) (c : Z) : option Z :=
  match edges, labs with
  | b0 :: ((b1 :: _) as rest), l :: ls =>
      if (b0 <? c) && (c <=? b1) then Some l else cut_from rest ls c
  | _, _ => None
  end.

Definition cohort10 (cohort : option Z) : option Z :=
  match cohort with
  | Some c => cut_from bins labels c
  | None => None
  end.

(** The rows kept by [dropna(subset=['cohort10'])], each with its decade;
    a row is its cohort and the rest of its columns. *)
Definition gss_cohort10 {A : Type} (rows : list (option Z * A)) : list (Z * A) :=
  flat_map (fun '(c, a) => match cohort10 c with Some l => [(l, a)] | None => [] end) rows.

(* ------------------------------------------------------------------ *)
(** ** The subsample loop

    [while not ref_id_in_sample: subset = questions.sample(5_000, ...)]
    redraws until both reference ids are in the sample.  [draw k] is the
    index set of the [k]-th sample taken from the generator; [fuel] bounds
    the number of attempts (the Python loop has no bound). *)
Definition REF_IDs : Z * Z := (5034, 309).

Definition ref_in_sample (idxs : list Z) : bool :=
  existsb (Z.eqb (fst REF_IDs)) idxs && existsb (Z.eqb (snd REF_IDs)) idxs.

Fixpoint sample_until (fuel : nat) (draw : nat -> list Z) (k : nat) : option (nat * list Z) :=
  match fuel with
  | O => None
  | S f =>
      let idxs := draw k in
      if ref_in_sample idxs then Some (k, idxs) else sample_until f draw (S k)
  end.

(* ------------------------------------------------------------------ *)
(** ** Survey year per respondent: [sorted_years]

    [years = q[q.iloc[:, :-2].isna().sum(1) > 0]["year"]] keeps the rows
    with at least one missing answer; [sorted_years = years[id_cat.categories]]
    looks every respondent id up by label, raising [KeyError] ([None])
    when one is absent. *)
Definition has_missing (n : nat) (r : Row) : bool :=
  existsb (fun j => negb (observed r j)) (seq 0 n).

Definition years_series (W : Wide) : list (Z * Z) :=
  map (fun r => (row_id r, row_year r))
      (filter (has_missing (List.length (w_questions W))) (w_rows W)).

Definition loc_key (s : list (Z * Z)) (k : Z) : option Z :=
  match find (fun kv => fst kv =? k)%Z s with Some kv => Some (snd kv) | None => None end.

Fixpoint loc_all (s : list (Z * Z)) (keys : list Z) : option (list Z) :=
  match keys with
  | [] => Some []
  | k :: t =>
      match loc_key s k, loc_all s t with
      | Some v, Some vs => Some (v :: vs)
      | _, _ => None
      end
  end.

Definition sorted_years (W : Wide) : option (list Z) :=
  loc_all (years_series W) (id_cats (long_q W)).

(** [sorted_years_cat = pd.Categorical(sorted_years)]. *)
Definition sorted_years_codes (ys : list Z) : list Z := cat_codes Z.eqb Z.ltb ys.

(* ------------------------------------------------------------------ *)
(** ** [plot_questions_prob(pp)]: the panel titles

    One panel per axis of a 3 x 5 grid; panel [qi] shows the question
    [sorted_p[qi]] ([sorted_p]: the questions by decreasing mean
    probability).  Indexing a missing position raises [IndexError]. *)
Fixpoint traverse_opt {A B : Type} (f : A -> option B) (xs : list A) : option (list B) :=
  match xs with
  | [] => Some []
  | x :: t =>
      match f x, traverse_opt f t with
      | Some y, Some ys => Some (y :: ys)
      | _, _ => None
      end
  end.

Definition plot_panels {A : Type} (sorted_p : list A) : option (list A) :=
  traverse_opt (fun qi => py_index sorted_p (Z.of_nat qi)) (seq 0 (3 * 5)).

Open Scope R_scope.

(* ================================================================== *)
(** * Properties *)

(** ** Sanity checks on small inputs *)

Example long_q_ex :
  long_q W_ex = [ mkLong 3 "cappun" true 1972;
                  mkLong 7 "abany" true 1990;
                  mkLong 7 "cappun" false 1990 ].
Proof. reflexivity. Qed.

Example obs_table_ex :
  obs_table (long_q W_ex) = [ mkObs 0 1 0 true; mkObs 1 0 1 true; mkObs 1 1 1 false ].
Proof. reflexivity. Qed.

Example id_year_codes_ex : id_year_codes (long_q W_ex) = [0%Z; 1%Z].
Proof. reflexivity. Qed.

(* ------------------------------------------------------------------ *)
(** ** Indexing lemmas *)

Lemma add_at_length (xs : list R) (q : nat) (delta : R) :
  List.length (add_at xs q delta) = List.length xs.
Proof.
  revert q; induction xs as [|x t IH]; intros [|q]; simpl; auto.
Qed.

Lemma nth_error_add_at (xs : list R) (q : nat) (delta : R) (i : nat) :
  nth_error (add_at xs q delta) i =
  option_map (fun x => if Nat.eqb i q then x + delta else x) (nth_error xs i).
Proof.
  revert q i; induction xs as [|x t IH]; intros q i.
  - destruct q, i; reflexivity.
  - destruct q as [|q], i as [|i]; simpl; try reflexivity.
    + destruct (nth_error t i); reflexivity.
    + apply IH.
Qed.

Lemma py_index_add_at (xs : list R) (q : nat) (delta : R) (i : Z) :
  (0 <= i)%Z ->
  py_index (add_at xs q delta) i =
  option_map (fun x => if Nat.eqb (Z.to_nat i) q then x + delta else x) (py_index xs i).
Proof.
  intros Hi. unfold py_index. rewrite add_at_length.
  destruct ((0 <=? i)%Z && (i <? Z.of_nat (List.length xs))%Z) eqn:E1.
  - apply nth_error_add_at.
  - destruct ((- Z.of_nat (List.length xs) <=? i)%Z && (i <? 0)%Z) eqn:E2.
    + apply andb_true_iff in E2 as [_ E2]. apply Z.ltb_lt in E2. lia.
    + reflexivity.
Qed.

(* ------------------------------------------------------------------ *)
(** ** C5: the difficulty enters every linear predictor with sign -1 *)

(** C5. In all four models, increasing the difficulty [d[q]] of one
    question by [delta] lowers the linear predictor of every observation
    of that question (whatever its respondent and year) by exactly
    [delta], and leaves the linear predictor of observations of every
    other question unchanged. *)
Theorem logit_p_difficulty_shift (m : Model) (P : Params) (q : nat) (delta : R) (o : Obs) :
  (0 <= o_q o)%Z ->
  logit_p m (bump_d P q delta) o =
  if Nat.eqb (Z.to_nat (o_q o)) q
  then option_map (fun x => x - delta) (logit_p m P o)
  else logit_p m P o.
Proof.
  intros Hq. unfold logit_p, bump_d; simpl.
  rewrite py_index_add_at by exact Hq.
  destruct (py_index (p_e P) (o_r o)) as [er|];
    destruct (py_index (p_d P) (o_q o)) as [dq|];
    destruct (Nat.eqb (Z.to_nat (o_q o)) q); simpl; try reflexivity;
    destruct m; f_equal; ring.
Qed.

Lemma logit_p_difficulty_shift_witness :
  (0 <= o_q (mkObs 1 0 2 true))%Z /\
  logit_p M4 (bump_d (mkParams [1; 2] [3; 4] 1 (1/2) 0 0) 0 5) (mkObs 1 0 2 true) =
  option_map (fun x => x - 5)
    (logit_p M4 (mkParams [1; 2] [3; 4] 1 (1/2) 0 0) (mkObs 1 0 2 true)).
Proof.
  split.
  - simpl. lia.
  - exact (logit_p_difficulty_shift M4 (mkParams [1; 2] [3; 4] 1 (1/2) 0 0) 0 5
             (mkObs 1 0 2 true) ltac:(simpl; lia)).
Defined.

(* ------------------------------------------------------------------ *)
(** ** C4: the unpooled model [m1] *)

Lemma likelihood_in_coords (m : Model) (P : Params) (T : list Obs) :
  Forall (in_coords P) T ->
  likelihood m P T =
  Some (fold_right Rmult 1
          (map (fun o => bern_pmf (o_ans o)
                           (match m with
                            | M1 | M2 => py_get (p_e P) (o_r o) - py_get (p_d P) (o_q o)
                            | M3 | M4 => py_get (p_e P) (o_r o) + p_cye P * IZR (o_y o)
                                         - py_get (p_d P) (o_q o)
                            end)) T)).
Proof.
  induction 1 as [|o T [He Hd] _ IH]; simpl; [reflexivity|].
  rewrite IH. unfold logit_p, py_get.
  destruct (py_index (p_e P) (o_r o)); [|congruence].
  destruct (py_index (p_d P) (o_q o)); [|congruence].
  reflexivity.
Qed.

(** C4. In [m1] the difficulties have a Normal(0, 1) prior over the
    question axis, the efficacies a Normal(0, 4) prior over the respondent
    axis with the same scale for every respondent, nothing else is
    declared (no time term: the linear predictor ignores the year code and
    the trend coefficient), the linear predictor is [e[r] - d[q]], and the
    likelihood of the table is the product of independent Bernoulli
    probabilities with that logit. *)
Theorem m1_unpooled (iyc : list Z) (P : Params) (T : list Obs) :
  Forall (in_coords P) T ->
  (exists sd se,
      find_decl "d" (decls M1 iyc) = Some (mkDecl "d" (Normal 0 sd) ["question"]) /\
      (forall P' i, sd P' i = 1) /\
      find_decl "e" (decls M1 iyc) = Some (mkDecl "e" (Normal 0 se) ["respondent"]) /\
      (forall P' r, se P' r = 4)) /\
  map dname (decls M1 iyc) = ["d"; "e"] /\
  (forall o, logit_p M1 P o =
             match py_index (p_e P) (o_r o), py_index (p_d P) (o_q o) with
             | Some er, Some dq => Some (er - dq)
             | _, _ => None
             end) /\
  (forall o y c,
      logit_p M1 (mkParams (p_d P) (p_e P) (p_e_std P) c (p_pyz P) (p_pye P))
                 (mkObs (o_r o) (o_q o) y (o_ans o)) = logit_p M1 P o) /\
  likelihood M1 P T =
  Some (fold_right Rmult 1
          (map (fun o => bern_pmf (o_ans o) (py_get (p_e P) (o_r o) - py_get (p_d P) (o_q o))) T)).
Proof.
  intros HT. split; [|split; [|split; [|split]]].
  - exists (fun _ _ => 1), (fun _ _ => 4). repeat split; reflexivity.
  - reflexivity.
  - intros o. reflexivity.
  - intros o y c. reflexivity.
  - exact (likelihood_in_coords M1 P T HT).
Qed.

Lemma m1_unpooled_witness :
  Forall (in_coords (mkParams [0; 1] [2] 0 0 0 0)) [mkObs 0 1 0 true] /\
  likelihood M1 (mkParams [0; 1] [2] 0 0 0 0) [mkObs 0 1 0 true] = Some (invlogit (2 - 1) * 1).
Proof.
  assert (H : Forall (in_coords (mkParams [0; 1] [2] 0 0 0 0)) [mkObs 0 1 0 true]).
  { constructor; [|constructor]. unfold in_coords; simpl; split; discriminate. }
  split; [exact H|].
  destruct (m1_unpooled [] (mkParams [0; 1] [2] 0 0 0 0) [mkObs 0 1 0 true] H)
    as [_ [_ [_ [_ HL]]]].
  rewrite HL. reflexivity.
Defined.

(* ------------------------------------------------------------------ *)
(** ** C3: the calendar trend of [m3] *)

(** C3. In [m3] the trend [conservatism_year_effect] is a scalar with a
    Normal(0, 1) prior, and the linear predictor of the [k]-th row of the
    observation table is [e[r] + conservatism_year_effect * y - d[q]],
    where [y] is the dense year code of that row's own year
    ([q_year_cat.codes[k]]). *)
Theorem m3_trend_observation_year (iyc : list Z) (L : list LongRow) (P : Params)
    (k : nat) (l : LongRow) (o : Obs) :
  nth_error L k = Some l ->
  nth_error (obs_table L) k = Some o ->
  (exists s, find_decl "conservatism_year_effect" (decls M3 iyc) =
               Some (mkDecl "conservatism_year_effect" (Normal 0 s) []) /\
             forall P' i, s P' i = 1) /\
  o_y o = code_of Z.eqb (q_year_cats L) (l_year l) /\
  logit_p M3 P o =
  match py_index (p_e P) (o_r o), py_index (p_d P) (o_q o) with
  | Some er, Some dq =>
      Some (er + p_cye P * IZR (code_of Z.eqb (q_year_cats L) (l_year l)) - dq)
  | _, _ => None
  end.
Proof.
  intros Hl Ho.
  unfold obs_table in Ho. rewrite nth_error_map, Hl in Ho. simpl in Ho.
  injection Ho as <-.
  split; [|split].
  - exists (fun _ _ => 1). split; reflexivity.
  - reflexivity.
  - reflexivity.
Qed.

Lemma m3_trend_observation_year_witness :
  nth_error (obs_table (long_q W_ex)) 0 = Some (mkObs 0 1 0 true) /\
  logit_p M3 (mkParams [0; 0] [1; 1] 1 2 0 0) (mkObs 0 1 0 true) = Some (1 + 2 * IZR 0 - 0).
Proof.
  split; [reflexivity|].
  destruct (m3_trend_observation_year [] (long_q W_ex) (mkParams [0; 0] [1; 1] 1 2 0 0) 0
              (mkLong 3 "cappun" true 1972) (mkObs 0 1 0 true) eq_refl eq_refl)
    as [_ [_ H]].
  rewrite H. reflexivity.
Defined.

(* ------------------------------------------------------------------ *)
(** ** Forward-simulation lemmas *)

Lemma invlogit_bounds (x : R) : 0 < invlogit x < 1.
Proof.
  unfold invlogit. pose proof (exp_pos (- x)) as He. split.
  - apply Rinv_0_lt_compat. lra.
  - rewrite <- Rinv_1. apply Rinv_1_lt_contravar; lra.
Qed.

Lemma invlogit_0 : invlogit 0 = / 2.
Proof. unfold invlogit. rewrite Ropp_0, exp_0. f_equal; try ring. Qed.

Lemma outer_from_length (s a b : nat) (f : nat -> nat -> R) :
  List.length (flat_map (fun i => map (fun j => f i j) (seq 0 b)) (seq s a)) = (a * b)%nat.
Proof.
  revert s; induction a as [|a IH]; intros s; simpl; auto.
  rewrite length_app, length_map, length_seq, IH. reflexivity.
Qed.

Lemma outer_length (a b : nat) (f : nat -> nat -> R) :
  List.length (outer a b f) = (a * b)%nat.
Proof. apply outer_from_length. Qed.

Lemma outer_from_nth (s a b : nat) (f : nat -> nat -> R) (i j : nat) :
  (i < a)%nat -> (j < b)%nat ->
  nth (i * b + j) (flat_map (fun i => map (fun j => f i j) (seq 0 b)) (seq s a)) 0 =
  f (s + i)%nat j.
Proof.
  intros Hi Hj. revert s i Hi.
  induction a as [|a IH]; intros s i Hi; [lia|]. simpl.
  destruct i as [|i].
  - rewrite app_nth1 by (rewrite length_map, length_seq; lia).
    rewrite nth_indep with (d' := f s 0%nat) by (rewrite length_map, length_seq; lia).
    rewrite map_nth, seq_nth by lia. f_equal; lia.
  - rewrite app_nth2 by (rewrite length_map, length_seq; lia).
    rewrite length_map, length_seq.
    replace (S i * b + j - b)%nat with (i * b + j)%nat by lia.
    rewrite IH by lia. f_equal; lia.
Qed.

Lemma mat_at_outer (a b : nat) (f : nat -> nat -> R) (i j : nat) :
  (i < a)%nat -> (j < b)%nat -> mat_at (outer a b f) b i j = f i j.
Proof. intros Hi Hj. apply (outer_from_nth 0 a b f i j Hi Hj). Qed.

Ltac fwd_red :=
  lazy [forward_from pp42_nodes pp32_nodes resample_nodes forecast_outputs mem existsb
        String.eqb Ascii.eqb Bool.eqb lookup get nkind nname ninputs is_rv negb orb andb
        std_normal_node compute_node map app].

(** One draw of [pp32]. *)
Lemma pp32_forward (n_y n_q : nat) (trace : Env) (noise : string -> nat -> R) :
  let env := forward (pp32_nodes n_y n_q) forecast_outputs trace noise in
  get env "e_std" = trace_or trace "e_std" (halfnormal_draw 4 (noise "e_std")) /\
  get env "d" = trace_or trace "d" (normal_draw n_q (fun _ => 0) (fun _ => 1) (noise "d")) /\
  get env "conservatism_year_effect" =
    trace_or trace "conservatism_year_effect"
      (normal_draw 1 (fun _ => 0) (fun _ => 1) (noise "conservatism_year_effect")) /\
  get env "e_new" =
    normal_draw 1 (fun _ => 0) (fun _ => sc (get env "e_std")) (noise "e_new") /\
  get env "p" =
    map invlogit (outer n_y n_q (fun y q =>
      sc (get env "e_new") + sc (get env "conservatism_year_effect") * INR y
      - nth q (get env "d") 0)).
Proof.
  unfold forward, trace_or. fwd_red.
  destruct (trace_val trace "d"), (trace_val trace "e_std"),
    (trace_val trace "conservatism_year_effect");
  fwd_red; repeat split; reflexivity.
Qed.

(** One draw of [pp42]; the posterior of [m4] holds no [e_std] (it is not
    a [pm.Deterministic]). *)
Lemma pp42_forward (n_iy n_qy n_q : nat) (trace : Env) (noise : string -> nat -> R) :
  trace_val trace "e_std" = None ->
  let env := forward (pp42_nodes n_iy n_qy n_q) forecast_outputs trace noise in
  get env "d" = trace_or trace "d" (normal_draw n_q (fun _ => 0) (fun _ => 1) (noise "d")) /\
  get env "polarization_year_zero" =
    trace_or trace "polarization_year_zero"
      (normal_draw 1 (fun _ => 0) (fun _ => 1) (noise "polarization_year_zero")) /\
  get env "polarization_year_effect" =
    trace_or trace "polarization_year_effect"
      (normal_draw 1 (fun _ => 0) (fun _ => 1) (noise "polarization_year_effect")) /\
  get env "conservatism_year_effect" =
    trace_or trace "conservatism_year_effect"
      (normal_draw 1 (fun _ => 0) (fun _ => 1) (noise "conservatism_year_effect")) /\
  get env "e_std" =
    map (fun y => exp (sc (get env "polarization_year_zero")
                       + sc (get env "polarization_year_effect") * INR y)) (seq 0 n_iy) /\
  get env "e_new" =
    normal_draw n_iy (fun _ => 0) (fun i => nth i (get env "e_std") 0) (noise "e_new") /\
  get env "p" =
    map invlogit (outer n_qy n_q (fun y q =>
      nth y (get env "e_new") 0 + sc (get env "conservatism_year_effect") * INR y
      - nth q (get env "d") 0)).
Proof.
  intros Hs. unfold forward, trace_or. fwd_red. rewrite Hs.
  destruct (trace_val trace "d"), (trace_val trace "polarization_year_zero"),
    (trace_val trace "polarization_year_effect"),
    (trace_val trace "conservatism_year_effect");
  fwd_red; repeat split; reflexivity.
Qed.

Lemma nth_map_seq (f : nat -> R) (n i : nat) (d : R) :
  (i < n)%nat -> nth i (map f (seq 0 n)) d = f i.
Proof.
  intros Hi. rewrite nth_indep with (d' := f 0%nat) by (rewrite length_map, length_seq; lia).
  rewrite map_nth, seq_nth by lia. reflexivity.
Qed.

(** The probability grid of both forecast simulations is [invlogit] of
    the linear-predictor grid built from the draw's [e_new],
    [conservatism_year_effect] and [d]. *)
Lemma pp32_grid (n_y n_q : nat) (trace : Env) (noise : string -> nat -> R) :
  let env := forward (pp32_nodes n_y n_q) forecast_outputs trace noise in
  get env "p" =
    map invlogit (outer n_y n_q (fun y q =>
      sc (get env "e_new") + sc (get env "conservatism_year_effect") * INR y
      - nth q (get env "d") 0)).
Proof.
  unfold forward. fwd_red.
  destruct (trace_val trace "d"), (trace_val trace "e_std"),
    (trace_val trace "conservatism_year_effect");
  fwd_red; reflexivity.
Qed.

Lemma pp42_grid (n_iy n_qy n_q : nat) (trace : Env) (noise : string -> nat -> R) :
  let env := forward (pp42_nodes n_iy n_qy n_q) forecast_outputs trace noise in
  get env "p" =
    map invlogit (outer n_qy n_q (fun y q =>
      nth y (get env "e_new") 0 + sc (get env "conservatism_year_effect") * INR y
      - nth q (get env "d") 0)).
Proof.
  unfold forward. fwd_red.
  destruct (trace_val trace "d"), (trace_val trace "polarization_year_zero"),
    (trace_val trace "polarization_year_effect"), (trace_val trace "e_std"),
    (trace_val trace "conservatism_year_effect");
  fwd_red; reflexivity.
Qed.

Lemma in_outer (a b : nat) (f : nat -> nat -> R) (x : R) :
  In x (outer a b f) -> exists i j, (i < a)%nat /\ (j < b)%nat /\ x = f i j.
Proof.
  unfold outer. intros H. apply in_flat_map in H as [i [Hi H]].
  apply in_map_iff in H as [j [<- Hj]].
  apply in_seq in Hi, Hj. exists i, j. repeat split; lia.
Qed.

Lemma mat_at_map_invlogit (a b : nat) (f : nat -> nat -> R) (i j : nat) :
  (i < a)%nat -> (j < b)%nat ->
  mat_at (map invlogit (outer a b f)) b i j = invlogit (f i j).
Proof.
  intros Hi Hj. unfold mat_at.
  assert (Hk : (i * b + j < List.length (outer a b f))%nat).
  { rewrite outer_length. nia. }
  rewrite nth_indep with (d' := invlogit 0) by (rewrite length_map; exact Hk).
  rewrite map_nth. f_equal. apply (mat_at_outer a b f i j Hi Hj).
Qed.

(* ------------------------------------------------------------------ *)
(** ** C6: the forecast probability grid *)

(** C6. Every entry of the forecast probability grid [p] of [pp32] and of
    [pp42] lies strictly between 0 and 1; when the draw binds [e_new] to
    0, [conservatism_year_effect] to 0 and every difficulty to 0, every
    entry equals exactly 1/2. *)
Theorem forecast_grid_open_unit (n_y n_iy n_q : nat) (trace : Env) (noise : string -> nat -> R) :
  let env32 := forward (pp32_nodes n_y n_q) forecast_outputs trace noise in
  let env42 := forward (pp42_nodes n_iy n_y n_q) forecast_outputs trace noise in
  (forall x, In x (get env32 "p") -> 0 < x < 1) /\
  (forall x, In x (get env42 "p") -> 0 < x < 1) /\
  (sc (get env32 "e_new") = 0 -> sc (get env32 "conservatism_year_effect") = 0 ->
   (forall q, nth q (get env32 "d") 0 = 0) ->
   forall x, In x (get env32 "p") -> x = / 2) /\
  (forall (He : forall y, nth y (get env42 "e_new") 0 = 0),
   sc (get env42 "conservatism_year_effect") = 0 ->
   (forall q, nth q (get env42 "d") 0 = 0) ->
   forall x, In x (get env42 "p") -> x = / 2).
Proof.
  cbv zeta. rewrite pp32_grid, pp42_grid.
  split; [|split; [|split]].
  - intros x Hx. apply in_map_iff in Hx as [z [<- _]]. apply invlogit_bounds.
  - intros x Hx. apply in_map_iff in Hx as [z [<- _]]. apply invlogit_bounds.
  - intros He Hc Hd x Hx. apply in_map_iff in Hx as [z [<- Hz]].
    apply in_outer in Hz as [y [q [_ [_ ->]]]].
    rewrite He, Hc, Hd. replace (0 + 0 * INR y - 0) with 0 by ring. apply invlogit_0.
  - intros He Hc Hd x Hx. apply in_map_iff in Hx as [z [<- Hz]].
    apply in_outer in Hz as [y [q [_ [_ ->]]]].
    rewrite He, Hc, Hd. replace (0 + 0 * INR y - 0) with 0 by ring. apply invlogit_0.
Qed.

Ltac fwd_eval :=
  unfold forward; fwd_red;
  lazy [trace_val lookup trace_ex noise0 String.eqb Ascii.eqb Bool.eqb sc nth
        normal_draw halfnormal_draw seq map].

Lemma forecast_grid_open_unit_witness :
  (forall x, In x (get (forward (pp32_nodes 2 2) forecast_outputs trace_ex noise0) "p") ->
             x = / 2) /\
  (forall x, In x (get (forward (pp42_nodes 2 2 2) forecast_outputs trace_ex noise0) "p") ->
             x = / 2).
Proof.
  destruct (forecast_grid_open_unit 2 2 2 trace_ex noise0) as [_ [_ [H32 H42]]].
  split.
  - apply H32.
    + fwd_eval. ring.
    + fwd_eval. reflexivity.
    + intros [|[|q]]; fwd_eval; try destruct q; reflexivity.
  - apply H42.
    + intros [|[|y]]; fwd_eval; try destruct y; try reflexivity; ring.
    + fwd_eval. reflexivity.
    + intros [|[|q]]; fwd_eval; try destruct q; reflexivity.
Defined.

(* ------------------------------------------------------------------ *)
(** ** C1: fresh efficacies in forecast mode *)

(** C1 (as the code does it). In forecast mode a new respondent's
    efficacy is drawn from the hierarchical prior at the posterior draw's
    hyper-parameters.  [pp32] (model [m3]) draws ONE [e_new] per posterior
    draw, from Normal(0, e_std), and every year row of the grid uses it:
    [p[y, q] = invlogit(e_new + trend * y - d[q])].  [pp42] (model [m4])
    draws one [e_new] per posterior draw AND year, from
    Normal(0, exp(polarization_year_zero + polarization_year_effect * y)),
    and row [y] uses its own draw:
    [p[y, q] = invlogit(e_new[y] + trend * y - d[q])]. *)
Theorem forecast_e_new_draws (n_y n_q : nat) (trace3 trace4 : Env) (noise : string -> nat -> R) :
  trace_val trace4 "e_std" = None ->
  let env32 := forward (pp32_nodes n_y n_q) forecast_outputs trace3 noise in
  let env42 := forward (pp42_nodes n_y n_y n_q) forecast_outputs trace4 noise in
  get env32 "e_new" =
    [0 + sc (trace_or trace3 "e_std" (halfnormal_draw 4 (noise "e_std"))) * noise "e_new" O] /\
  (forall y q, (y < n_y)%nat -> (q < n_q)%nat ->
     mat_at (get env32 "p") n_q y q =
     invlogit (sc (get env32 "e_new") + sc (get env32 "conservatism_year_effect") * INR y
               - nth q (get env32 "d") 0)) /\
  get env42 "e_new" =
    map (fun y => 0 + exp (sc (trace_or trace4 "polarization_year_zero"
                                 (normal_draw 1 (fun _ => 0) (fun _ => 1)
                                    (noise "polarization_year_zero")))
                           + sc (trace_or trace4 "polarization_year_effect"
                                   (normal_draw 1 (fun _ => 0) (fun _ => 1)
                                      (noise "polarization_year_effect"))) * INR y)
                      * noise "e_new" y) (seq 0 n_y) /\
  (forall y q, (y < n_y)%nat -> (q < n_q)%nat ->
     mat_at (get env42 "p") n_q y q =
     invlogit (nth y (get env42 "e_new") 0 + sc (get env42 "conservatism_year_effect") * INR y
               - nth q (get env42 "d") 0)).
Proof.
  intros Hs. cbv zeta.
  destruct (pp32_forward n_y n_q trace3 noise) as [Hs3 [_ [_ [He3 Hp3]]]].
  destruct (pp42_forward n_y n_y n_q trace4 noise Hs) as [_ [Ha [Hb [_ [Hstd [He4 Hp4]]]]]].
  split; [|split; [|split]].
  - rewrite He3, Hs3. reflexivity.
  - intros y q Hy Hq. rewrite Hp3. apply mat_at_map_invlogit; assumption.
  - rewrite He4, Hstd, Ha, Hb. unfold normal_draw.
    apply map_ext_in. intros y Hy. apply in_seq in Hy.
    cbv beta. rewrite nth_map_seq by lia. reflexivity.
  - intros y q Hy Hq. rewrite Hp4. apply mat_at_map_invlogit; assumption.
Qed.

Lemma forecast_e_new_draws_witness :
  get (forward (pp42_nodes 2 2 1) forecast_outputs [("polarization_year_zero", [0]);
         ("polarization_year_effect", [0])] noise_seq) "e_new" =
  map (fun y => 0 + exp (0 + 0 * INR y) * (INR y + 1)) (seq 0 2).
Proof.
  destruct (forecast_e_new_draws 2 1 trace_ex
              [("polarization_year_zero", [0]); ("polarization_year_effect", [0])]
              noise_seq eq_refl) as [_ [_ [H _]]].
  rewrite H. reflexivity.
Defined.

(** C1 fails for [pp32]: with a two-year grid the simulation holds a
    single [e_new], and the two year rows of [p] use that same draw (here
    the trend is 0, so the rows coincide although the noise source offers
    two different draws). *)
Lemma forecast_e_new_shared_across_years :
  let env := forward (pp32_nodes 2 1) forecast_outputs trace_ex noise_seq in
  List.length (get env "e_new") = 1%nat /\
  noise_seq "e_new" 0%nat <> noise_seq "e_new" 1%nat /\
  mat_at (get env "p") 1 0 0 = mat_at (get env "p") 1 1 0.
Proof.
  cbv zeta. split; [|split].
  - fwd_eval. reflexivity.
  - unfold noise_seq. simpl. lra.
  - rewrite pp32_grid.
    rewrite !mat_at_map_invlogit by lia. f_equal.
    fwd_eval. simpl. ring.
Qed.

(* ------------------------------------------------------------------ *)
(** ** C10: resample mode reads the latent parameters from the posterior *)

Ltac resample_cases trace :=
  destruct (trace_val trace "d"), (trace_val trace "e"),
    (trace_val trace "logit_p"), (trace_val trace "response"),
    (trace_val trace "response_sum").

(** C10. In the resample-mode simulations ([pp1] .. [pp4]: [resample_nodes]
    with [var_names=["response_sum"]]), [d], [e] and
    [conservatism_year_effect] take the posterior draw's values whenever
    the posterior holds them; consequently two such simulations that
    differ only in the prior scale declared for [e] produce the same
    [response_sum] for the same posterior draw and noise, as soon as the
    posterior holds [e]. *)
Theorem resample_uses_posterior (sigma1 sigma2 : R) (trend : option (list Z)) (n_r n_q : nat)
    (trace : Env) (noise : string -> nat -> R) (ve : Val) :
  trace_val trace "e" = Some ve ->
  let env := forward (resample_nodes sigma1 trend n_r n_q) ["response_sum"] trace noise in
  get env "e" = ve /\
  (forall vd, trace_val trace "d" = Some vd -> get env "d" = vd) /\
  (forall vc ys, trend = Some ys -> trace_val trace "conservatism_year_effect" = Some vc ->
                 get env "conservatism_year_effect" = vc) /\
  sample_pp (resample_nodes sigma1 trend n_r n_q) ["response_sum"] trace noise =
  sample_pp (resample_nodes sigma2 trend n_r n_q) ["response_sum"] trace noise.
Proof.
  intros He. cbv zeta. unfold sample_pp, forward.
  destruct trend as [ys|].
  - fwd_red. rewrite He.
    destruct (trace_val trace "conservatism_year_effect") eqn:Hc; resample_cases trace;
      fwd_red; (split; [reflexivity|split; [|split]]);
      first [ intros ? H; injection H as <-; reflexivity
            | intros ? ? H; try discriminate H; intros H'; try discriminate H';
              injection H' as <-; reflexivity
            | intros ? H; discriminate H
            | intros ? ? _ H; discriminate H
            | reflexivity ].
  - fwd_red. rewrite He.
    resample_cases trace;
      fwd_red; (split; [reflexivity|split; [|split]]);
      first [ intros ? H; injection H as <-; reflexivity
            | intros ? ? H; discriminate H
            | intros ? H; discriminate H
            | reflexivity ].
Qed.

Lemma resample_uses_posterior_witness :
  sample_pp (resample_nodes 4 (Some [0%Z]) 1 1) ["response_sum"]
    [("d", [0]); ("e", [2]); ("conservatism_year_effect", [0])] noise_seq =
  sample_pp (pp4_nodes [0%Z] 1 1) ["response_sum"]
    [("d", [0]); ("e", [2]); ("conservatism_year_effect", [0])] noise_seq.
Proof.
  destruct (resample_uses_posterior 4 1 (Some [0%Z]) 1 1
              [("d", [0]); ("e", [2]); ("conservatism_year_effect", [0])] noise_seq [2]
              eq_refl) as [_ [_ [_ H]]].
  exact H.
Defined.

(* ------------------------------------------------------------------ *)
(** ** C8: decoding codes of the categorical encoder *)

Section EncoderProofs.
Context {A : Type} (eqb ltb : A -> A -> bool).
Hypothesis eqb_reflect : forall x y, reflect (x = y) (eqb x y).

Lemma in_ins_cat (x y : A) (cats : list A) : In x (ins_cat eqb ltb y cats) <-> x = y \/ In x cats.
Proof.
  induction cats as [|c t IH]; simpl.
  - intuition congruence.
  - destruct (eqb_reflect y c) as [->|_]; simpl; [intuition congruence|].
    destruct (ltb y c); simpl; [intuition congruence|]. rewrite IH. intuition congruence.
Qed.

Lemma in_fold_ins (x : A) (vs acc : list A) :
  In x (fold_left (fun acc v => ins_cat eqb ltb v acc) vs acc) <-> In x vs \/ In x acc.
Proof.
  revert acc; induction vs as [|v t IH]; intros acc; simpl.
  - tauto.
  - rewrite IH, in_ins_cat. intuition congruence.
Qed.

Lemma in_categories (x : A) (vs : list A) : In x (categories eqb ltb vs) <-> In x vs.
Proof. unfold categories. rewrite in_fold_ins. simpl. tauto. Qed.

Lemma index_of_in (x : A) (cats : list A) :
  In x cats -> exists i, index_of eqb x cats = Some i /\ nth_error cats i = Some x.
Proof.
  induction cats as [|c t IH]; simpl; [tauto|]. intros Hx.
  destruct (eqb_reflect x c) as [->|Hne].
  - exists O. split; reflexivity.
  - destruct IH as [i [Hi Hn]]; [destruct Hx; [congruence|assumption]|].
    rewrite Hi. exists (S i). split; [reflexivity|exact Hn].
Qed.

Lemma index_of_some (x : A) (cats : list A) (i : nat) :
  index_of eqb x cats = Some i -> nth_error cats i = Some x.
Proof.
  revert i; induction cats as [|c t IH]; intros i; simpl; [discriminate|].
  destruct (eqb_reflect x c) as [->|_].
  - intros H; injection H as <-. reflexivity.
  - destruct (index_of eqb x t) eqn:E; [|discriminate].
    intros H; injection H as <-. simpl. apply IH. reflexivity.
Qed.

End EncoderProofs.

Lemma py_index_in_range {B : Type} (xs : list B) (i : nat) :
  (i < List.length xs)%nat -> py_index xs (Z.of_nat i) = nth_error xs i.
Proof.
  intros Hi. unfold py_index.
  replace ((0 <=? Z.of_nat i)%Z && (Z.of_nat i <? Z.of_nat (List.length xs))%Z) with true.
  - rewrite Nat2Z.id. reflexivity.
  - symmetry. apply andb_true_iff. split; [apply Z.leb_le | apply Z.ltb_lt]; lia.
Qed.

(** C8 (as the code does it). Decoding the code of any encoded value
    (indexing the categories with it) returns that value.  Decoding is
    plain indexing, and no [EncodingError] exists: a code at or above the
    number of categories, or below minus that number, yields no value
    (Python raises [IndexError]), while a negative code [-k] with [k] at
    most the number of categories yields the category at position
    [n - k]. *)
Theorem encode_decode_roundtrip {A : Type} (eqb ltb : A -> A -> bool)
    (eqb_reflect : forall x y, reflect (x = y) (eqb x y)) (values : list A) :
  let cats := categories eqb ltb values in
  (forall x, In x values -> decode cats (code_of eqb cats x) = Some x) /\
  (forall c, (Z.of_nat (List.length cats) <= c \/ c < - Z.of_nat (List.length cats))%Z ->
             decode cats c = None) /\
  (forall k, (1 <= k <= List.length cats)%nat ->
             decode cats (- Z.of_nat k) = nth_error cats (List.length cats - k)).
Proof.
  cbv zeta. split; [|split].
  - intros x Hx. apply (in_categories eqb ltb eqb_reflect) in Hx.
    destruct (index_of_in eqb ltb eqb_reflect x _ Hx) as [i [Hi Hn]].
    unfold code_of. rewrite Hi. unfold decode.
    rewrite py_index_in_range; [exact Hn|].
    apply nth_error_Some. congruence.
  - intros c Hc. unfold decode, py_index.
    destruct ((0 <=? c)%Z && (c <? Z.of_nat (List.length (categories eqb ltb values)))%Z) eqn:E1.
    + apply andb_true_iff in E1 as [E0 E1]. apply Z.leb_le in E0. apply Z.ltb_lt in E1.
      lia.
    + destruct ((- Z.of_nat (List.length (categories eqb ltb values)) <=? c)%Z && (c <? 0)%Z) eqn:E2;
        [|reflexivity].
      apply andb_true_iff in E2 as [E2 E3]. apply Z.leb_le in E2. apply Z.ltb_lt in E3.
      destruct Hc; lia.
  - intros k Hk. unfold decode, py_index.
    replace ((0 <=? - Z.of_nat k)%Z) with false by (symmetry; apply Z.leb_gt; lia).
    simpl.
    replace ((- Z.of_nat (List.length (categories eqb ltb values)) <=? - Z.of_nat k)%Z
             && (- Z.of_nat k <? 0)%Z) with true
      by (symmetry; apply andb_true_iff; split; [apply Z.leb_le | apply Z.ltb_lt]; lia).
    f_equal. lia.
Qed.

Lemma encode_decode_roundtrip_witness :
  decode (categories Z.eqb Z.ltb [5034%Z; 309%Z; 5034%Z])
         (code_of Z.eqb (categories Z.eqb Z.ltb [5034%Z; 309%Z; 5034%Z]) 5034%Z)
  = Some 5034%Z.
Proof.
  destruct (encode_decode_roundtrip Z.eqb Z.ltb Z.eqb_spec [5034%Z; 309%Z; 5034%Z])
    as [H _].
  apply H. simpl. auto.
Defined.

(** C8 fails as stated: decoding the out-of-range code [-1] (pandas'
    missing-value sentinel) returns a value instead of failing. *)
Lemma decode_negative_code_returns_value :
  decode (categories Z.eqb Z.ltb [5034%Z; 309%Z]) (-1)%Z = Some 5034%Z /\
  ~ (0 <= -1 < Z.of_nat (List.length (categories Z.eqb Z.ltb [5034%Z; 309%Z])))%Z.
Proof. split; [reflexivity | simpl; lia]. Qed.

(* ------------------------------------------------------------------ *)
(** ** C9: codes outside the coordinates *)

Lemma code_of_in_range {A : Type} (eqb ltb : A -> A -> bool)
    (eqb_reflect : forall x y, reflect (x = y) (eqb x y)) (vs : list A) (x : A) :
  In x vs ->
  (0 <= code_of eqb (categories eqb ltb vs) x < Z.of_nat (List.length (categories eqb ltb vs)))%Z.
Proof.
  intros Hx. apply (in_categories eqb ltb eqb_reflect) in Hx.
  destruct (index_of_in eqb ltb eqb_reflect x _ Hx) as [i [Hi Hn]].
  unfold code_of. rewrite Hi.
  assert (i < List.length (categories eqb ltb vs))%nat by (apply nth_error_Some; congruence).
  lia.
Qed.

Lemma py_index_wrap {B : Type} (xs : list B) (i : Z) :
  (- Z.of_nat (List.length xs) <= i < 0)%Z ->
  py_index xs i = py_index xs (Z.of_nat (List.length xs) + i).
Proof.
  intros Hi. unfold py_index.
  replace ((0 <=? i)%Z && (i <? Z.of_nat (List.length xs))%Z) with false
    by (symmetry; apply andb_false_iff; left; apply Z.leb_gt; lia).
  replace ((- Z.of_nat (List.length xs) <=? i)%Z && (i <? 0)%Z) with true
    by (symmetry; apply andb_true_iff; split; [apply Z.leb_le | apply Z.ltb_lt]; lia).
  replace ((0 <=? Z.of_nat (List.length xs) + i)%Z
           && (Z.of_nat (List.length xs) + i <? Z.of_nat (List.length xs))%Z) with true
    by (symmetry; apply andb_true_iff; split; [apply Z.leb_le | apply Z.ltb_lt]; lia).
  reflexivity.
Qed.

(** C9 (as the code does it). No model checks the codes of the table
    against its coordinates, and there is no [ModelSpecError]: every
    observation of an encoded table carries codes inside the coordinate
    ranges because the codes and the coordinates come from the same
    [pd.Categorical]; a negative respondent code [-k] (with [k] at most the
    number of respondents) silently selects respondent [n - k], and a
    negative question code [-k] (with [k] at most the number of questions)
    silently selects question [n - k]. *)
Theorem obs_codes_in_coords (L : list LongRow) (m : Model) (P : Params) (o : Obs) :
  (forall o', In o' (obs_table L) ->
     (0 <= o_r o' < Z.of_nat (List.length (id_cats L)))%Z /\
     (0 <= o_q o' < Z.of_nat (List.length (q_cats L)))%Z /\
     (0 <= o_y o' < Z.of_nat (List.length (q_year_cats L)))%Z) /\
  ((- Z.of_nat (List.length (p_e P)) <= o_r o < 0)%Z ->
   logit_p m P o =
   logit_p m P (mkObs (Z.of_nat (List.length (p_e P)) + o_r o) (o_q o) (o_y o) (o_ans o))) /\
  ((- Z.of_nat (List.length (p_d P)) <= o_q o < 0)%Z ->
   logit_p m P o =
   logit_p m P (mkObs (o_r o) (Z.of_nat (List.length (p_d P)) + o_q o) (o_y o) (o_ans o))).
Proof.
  split; [|split].
  - intros o' Ho. unfold obs_table in Ho. apply in_map_iff in Ho as [l [<- Hl]]. simpl.
    split; [|split].
    + apply (code_of_in_range Z.eqb Z.ltb Z.eqb_spec). apply in_map. exact Hl.
    + apply (code_of_in_range String.eqb String.ltb String.eqb_spec). apply in_map. exact Hl.
    + apply (code_of_in_range Z.eqb Z.ltb Z.eqb_spec). apply in_map. exact Hl.
  - intros Hr. unfold logit_p. simpl. rewrite (py_index_wrap (p_e P) (o_r o) Hr). reflexivity.
  - intros Hq. unfold logit_p. simpl. rewrite (py_index_wrap (p_d P) (o_q o) Hq). reflexivity.
Qed.

Lemma obs_codes_in_coords_witness :
  logit_p M1 (mkParams [0] [1; 2] 0 0 0 0) (mkObs (-1) 0 0 true) =
  logit_p M1 (mkParams [0] [1; 2] 0 0 0 0) (mkObs 1 0 0 true) /\
  logit_p M1 (mkParams [5; 7] [1] 0 0 0 0) (mkObs 0 (-1) 0 true) =
  logit_p M1 (mkParams [5; 7] [1] 0 0 0 0) (mkObs 0 1 0 true).
Proof.
  split.
  - destruct (obs_codes_in_coords [] M1 (mkParams [0] [1; 2] 0 0 0 0) (mkObs (-1) 0 0 true))
      as [_ [H _]].
    apply H. simpl. lia.
  - destruct (obs_codes_in_coords [] M1 (mkParams [5; 7] [1] 0 0 0 0) (mkObs 0 (-1) 0 true))
      as [_ [_ H]].
    apply H. simpl. lia.
Defined.

(** C9 fails as stated: an observation whose respondent code [-1] lies
    outside the two declared respondents is not refused; [m1] reads the
    last respondent's efficacy for it. *)
Lemma out_of_range_code_wraps :
  ~ (0 <= o_r (mkObs (-1) 0 0 true) < Z.of_nat (List.length [1; 2]))%Z /\
  logit_p M1 (mkParams [0] [1; 2] 0 0 0 0) (mkObs (-1) 0 0 true) = Some (2 - 0).
Proof. split; [simpl; lia | reflexivity]. Qed.

(* ------------------------------------------------------------------ *)
(** ** C2: the polarization scale of [m4] *)

Lemma nth_map_lt {B C : Type} (f : B -> C) (xs : list B) (i : nat) (d : C) (d' : B) :
  (i < List.length xs)%nat -> nth i (map f xs) d = f (nth i xs d').
Proof.
  intros Hi. rewrite nth_indep with (d' := f d') by (rewrite length_map; exact Hi).
  apply map_nth.
Qed.

Lemma in_ins_cat_Z (x y : Z) (cats : list Z) :
  In x (ins_cat Z.eqb Z.ltb y cats) <-> x = y \/ In x cats.
Proof. apply (in_ins_cat Z.eqb Z.ltb Z.eqb_spec). Qed.

Lemma ins_cat_sorted (x : Z) (cats : list Z) :
  StronglySorted Z.lt cats -> StronglySorted Z.lt (ins_cat Z.eqb Z.ltb x cats).
Proof.
  induction cats as [|c t IH]; intros Hs; simpl.
  - repeat constructor.
  - destruct (Z.eqb_spec x c) as [->|Hne]; [exact Hs|].
    destruct (Z.ltb_spec x c) as [Hlt|Hge].
    + constructor; [exact Hs|]. apply StronglySorted_inv in Hs as [_ Hf].
      constructor; [exact Hlt|]. eapply Forall_impl; [|exact Hf]. intros a Ha. lia.
    + apply StronglySorted_inv in Hs as [Ht Hf]. constructor; [apply IH; exact Ht|].
      apply Forall_forall. intros a Ha. apply in_ins_cat_Z in Ha as [->|Ha]; [lia|].
      rewrite Forall_forall in Hf. apply Hf. exact Ha.
Qed.

Lemma categories_sorted (vs : list Z) : StronglySorted Z.lt (categories Z.eqb Z.ltb vs).
Proof.
  unfold categories. assert (H : StronglySorted Z.lt (@nil Z)) by constructor.
  revert H. generalize (@nil Z). induction vs as [|v t IH]; intros acc Hacc; simpl.
  - exact Hacc.
  - apply IH. apply ins_cat_sorted. exact Hacc.
Qed.

Lemma sorted_same_members (l1 l2 : list Z) :
  StronglySorted Z.lt l1 -> StronglySorted Z.lt l2 ->
  (forall x, In x l1 <-> In x l2) -> l1 = l2.
Proof.
  revert l2; induction l1 as [|a t1 IH]; intros [|b t2] H1 H2 Hm.
  - reflexivity.
  - exfalso. apply (proj2 (Hm b)). left. reflexivity.
  - exfalso. apply (proj1 (Hm a)). left. reflexivity.
  - apply StronglySorted_inv in H1 as [S1 F1]. apply StronglySorted_inv in H2 as [S2 F2].
    rewrite Forall_forall in F1, F2.
    assert (Hab : a = b).
    { destruct (proj1 (Hm a) (or_introl eq_refl)) as [->|Ha]; [reflexivity|].
      destruct (proj2 (Hm b) (or_introl eq_refl)) as [->|Hb]; [reflexivity|].
      specialize (F1 b Hb). specialize (F2 a Ha). lia. }
    subst b. f_equal. apply IH; [exact S1|exact S2|].
    intros x. split; intros Hx.
    + destruct (proj1 (Hm x) (or_intror Hx)) as [<-|H]; [|exact H].
      specialize (F1 a Hx). lia.
    + destruct (proj2 (Hm x) (or_intror Hx)) as [<-|H]; [|exact H].
      specialize (F2 a Hx). lia.
Qed.

Lemma categories_same_members (vs ws : list Z) :
  (forall x, In x vs <-> In x ws) -> categories Z.eqb Z.ltb vs = categories Z.eqb Z.ltb ws.
Proof.
  intros Hm. apply sorted_same_members; try apply categories_sorted.
  intros x. rewrite !(in_categories Z.eqb Z.ltb Z.eqb_spec). apply Hm.
Qed.

(** Every row of the long table carries its respondent's year. *)
Lemma long_q_year (W : Wide) (l : LongRow) :
  In l (long_q W) -> l_year l = year_of W (l_id l).
Proof.
  unfold long_q. intros H. apply in_map_iff in H as [[[i qn] a] [<- _]]. reflexivity.
Qed.

Lemma find_first_row (L : list LongRow) (i : Z) :
  In i (map l_id L) -> exists l, find (fun l => l_id l =? i)%Z L = Some l /\ In l L /\ l_id l = i.
Proof.
  intros Hi. destruct (find (fun l => l_id l =? i)%Z L) as [l|] eqn:E.
  - apply find_some in E as [Hl Hid]. apply Z.eqb_eq in Hid. exists l. auto.
  - exfalso. apply in_map_iff in Hi as [l [Hid Hl]].
    pose proof (find_none _ _ E l Hl) as H. simpl in H. apply Z.eqb_neq in H. auto.
Qed.

(** The years of first appearance and the observation years have the
    same categories, so [id_year_cat] and [q_year_cat] share their codes. *)
Lemma id_year_cats_eq (W : Wide) :
  id_year_cats (long_q W) = q_year_cats (long_q W).
Proof.
  unfold id_year_cats, q_year_cats. apply categories_same_members.
  intros y. unfold id_first_years. rewrite in_map_iff. split.
  - intros [i [Hy Hi]]. unfold id_cats in Hi.
    apply (proj1 (in_categories Z.eqb Z.ltb Z.eqb_spec i _)) in Hi.
    destruct (find_first_row _ _ Hi) as [l [Hf [Hl _]]]. rewrite Hf in Hy. subst y.
    apply in_map. exact Hl.
  - intros Hy. apply in_map_iff in Hy as [l [<- Hl]].
    exists (l_id l). split.
    + destruct (find_first_row (long_q W) (l_id l) (in_map _ _ _ Hl)) as [l' [Hf [Hl' Hid]]].
      rewrite Hf. rewrite (long_q_year W l' Hl'), (long_q_year W l Hl), Hid. reflexivity.
    + unfold id_cats. apply (proj2 (in_categories Z.eqb Z.ltb Z.eqb_spec _ _)).
      apply in_map. exact Hl.
Qed.

(** C2. In [m4] the efficacy of respondent [r] has a Normal(0, e_std(r))
    prior with [e_std(r) = exp(polarization_year_zero +
    polarization_year_effect * y)], where [y] is the dense year code of the
    first observed answer of [r] in the long table (the same code the
    observation-year encoder gives it); both polarization coefficients are
    standard normal; and the linear predictor keeps the calendar drift
    [conservatism_year_effect * year_code(observation)]. *)
Theorem m4_polarization_scale (W : Wide) (P : Params) (i : Z) (l : LongRow) (o : Obs) :
  let L := long_q W in
  find (fun l => l_id l =? i)%Z L = Some l ->
  (exists s,
     find_decl "e" (model_decls M4 L) = Some (mkDecl "e" (Normal 0 s) ["respondent"]) /\
     s P (Z.to_nat (code_of Z.eqb (id_cats L) i)) =
       exp (p_pyz P + p_pye P * IZR (code_of Z.eqb (q_year_cats L) (l_year l)))) /\
  (exists s1 s2,
     find_decl "polarization_year_zero" (model_decls M4 L) =
       Some (mkDecl "polarization_year_zero" (Normal 0 s1) []) /\
     find_decl "polarization_year_effect" (model_decls M4 L) =
       Some (mkDecl "polarization_year_effect" (Normal 0 s2) []) /\
     forall P' j, s1 P' j = 1 /\ s2 P' j = 1) /\
  logit_p M4 P o =
  match py_index (p_e P) (o_r o), py_index (p_d P) (o_q o) with
  | Some er, Some dq => Some (er + p_cye P * IZR (o_y o) - dq)
  | _, _ => None
  end.
Proof.
  cbv zeta. intros Hf. split; [|split].
  - exists (m4_e_std (id_year_codes (long_q W))). split; [reflexivity|].
    unfold m4_e_std. do 3 f_equal.
    apply find_some in Hf as [Hl Hid]. apply Z.eqb_eq in Hid.
    assert (Hi : In i (id_cats (long_q W))).
    { unfold id_cats. apply (proj2 (in_categories Z.eqb Z.ltb Z.eqb_spec _ _)).
      rewrite <- Hid. apply in_map. exact Hl. }
    destruct (index_of_in Z.eqb Z.ltb Z.eqb_spec i _ Hi) as [r [Hr Hn]].
    assert (Hlen : (r < List.length (id_cats (long_q W)))%nat)
      by (apply nth_error_Some; congruence).
    unfold code_of at 1. rewrite Hr, Nat2Z.id.
    unfold id_year_codes, cat_codes. fold (id_year_cats (long_q W)).
    rewrite id_year_cats_eq.
    rewrite (nth_map_lt _ _ _ _ 0%Z)
      by (unfold id_first_years; rewrite length_map; exact Hlen).
    f_equal. unfold id_first_years.
    rewrite (nth_map_lt _ _ _ _ 0%Z) by exact Hlen.
    rewrite (nth_error_nth _ _ 0%Z Hn). rewrite <- Hid.
    destruct (find_first_row (long_q W) (l_id l) (in_map _ _ _ Hl)) as [l' [Hf' [Hl' Hid']]].
    rewrite Hf'. rewrite (long_q_year W l' Hl'), (long_q_year W l Hl), Hid'. reflexivity.
  - exists (fun _ _ => 1), (fun _ _ => 1). repeat split.
  - reflexivity.
Qed.

Lemma m4_polarization_scale_witness :
  exists s, find_decl "e" (model_decls M4 (long_q W_ex)) = Some (mkDecl "e" (Normal 0 s) ["respondent"]) /\
    s (mkParams [] [] 0 0 (1/2) 2) 1%nat = exp (1/2 + 2 * IZR 1).
Proof.
  destruct (m4_polarization_scale W_ex (mkParams [] [] 0 0 (1/2) 2) 7%Z
              (mkLong 7 "abany" true 1990) (mkObs 1 0 1 true) eq_refl) as [H _].
  exact H.
Defined.

(* ------------------------------------------------------------------ *)
(** ** C7: the observation table builder *)

Section BuilderCounts.
Variable p : Z * string * bool -> bool.

Lemma filter_length_ins_by_id (x : Z * string * bool) (l : list (Z * string * bool)) :
  List.length (filter p (ins_by_id x l)) = ((if p x then 1 else 0) + List.length (filter p l))%nat.
Proof.
  induction l as [|y t IH]; simpl.
  - destruct (p x); reflexivity.
  - destruct x as [[i qi] ai], y as [[j qj] aj]. simpl in IH.
    destruct (i <=? j)%Z; simpl.
    + destruct (p (i, qi, ai)), (p (j, qj, aj)); reflexivity.
    + destruct (p (j, qj, aj)); simpl; rewrite IH; destruct (p (i, qi, ai)); reflexivity.
Qed.

Lemma filter_length_sort_by_id (l : list (Z * string * bool)) :
  List.length (filter p (sort_by_id l)) = List.length (filter p l).
Proof.
  induction l as [|x t IH]; simpl; [reflexivity|].
  rewrite filter_length_ins_by_id, IH. destruct (p x); reflexivity.
Qed.

End BuilderCounts.

Lemma filter_length_map {B C : Type} (p : C -> bool) (f : B -> C) (l : list B) :
  List.length (filter p (map f l)) = List.length (filter (fun x => p (f x)) l).
Proof. induction l as [|x t IH]; simpl; [reflexivity|]. destruct (p (f x)); simpl; auto. Qed.

Lemma filter_flat_map {B C : Type} (p : C -> bool) (g : B -> list C) (l : list B) :
  filter p (flat_map g l) = flat_map (fun x => filter p (g x)) l.
Proof. induction l as [|x t IH]; simpl; [reflexivity|]. rewrite filter_app, IH. reflexivity. Qed.

Lemma filter_rows_by_id (rows : list Row) (R : Row) :
  NoDup (map row_id rows) -> In R rows ->
  filter (fun r => row_id r =? row_id R)%Z rows = [R].
Proof.
  induction rows as [|r t IH]; simpl; [tauto|]. intros Hnd HR.
  inversion Hnd as [|? ? Hnot Hnd']; subst.
  assert (Hnone : forall t', (forall r', In r' t' -> row_id r' <> row_id R) ->
                  filter (fun r => row_id r =? row_id R)%Z t' = []).
  { induction t' as [|r' t' IH']; intros Hall; simpl; [reflexivity|].
    destruct (Z.eqb_spec (row_id r') (row_id R)) as [E|_].
    - exfalso. apply (Hall r'); [left; reflexivity|exact E].
    - apply IH'. intros r'' Hr''. apply Hall. right. exact Hr''. }
  destruct HR as [<-|HR].
  - rewrite Z.eqb_refl. f_equal. apply Hnone.
    intros r' Hr' E. apply Hnot. rewrite <- E. apply in_map. exact Hr'.
  - destruct (Z.eqb_spec (row_id r) (row_id R)) as [E|_].
    + exfalso. apply Hnot. rewrite E. apply in_map. exact HR.
    + apply IH; assumption.
Qed.

(** Counting the long table by (respondent, question) predicates. *)
Lemma long_q_count (W : Wide) (g : Z -> string -> bool) :
  List.length (filter (fun l => g (l_id l) (l_question l)) (long_q W)) =
  List.length (filter (fun t => g (fst (fst t)) (snd (fst t)) &&
                               match snd t with Some _ => true | None => false end) (melt W)).
Proof.
  unfold long_q. rewrite filter_length_map.
  rewrite (filter_ext _ (fun t => g (fst (fst t)) (snd (fst t))))
    by (intros [[i qn] a]; reflexivity).
  rewrite filter_length_sort_by_id. unfold dropna.
  induction (melt W) as [|[[i qn] c] t IH]; simpl; [reflexivity|].
  destruct c as [a|]; simpl; destruct (g i qn); simpl; auto.
Qed.

Lemma filter_andb {B : Type} (a b : B -> bool) (l : list B) :
  filter (fun x => a x && b x) l = filter b (filter a l).
Proof. induction l as [|x t IH]; simpl; [reflexivity|]. destruct (a x); simpl; rewrite IH; reflexivity. Qed.

Lemma melt_count_respondent (W : Wide) (R : Row) (h : string -> bool) :
  NoDup (map row_id (w_rows W)) -> In R (w_rows W) ->
  List.length (filter (fun t => ((fst (fst t) =? row_id R)%Z && h (snd (fst t))) &&
                               match snd t with Some _ => true | None => false end) (melt W)) =
  List.length (filter (fun jq => h (snd jq) && observed R (fst jq))
                 (combine (seq 0 (List.length (w_questions W))) (w_questions W))).
Proof.
  intros Hnd HR. unfold melt. rewrite filter_flat_map.
  induction (combine (seq 0 (List.length (w_questions W))) (w_questions W)) as [|[j qn] t IH];
    simpl; [reflexivity|].
  rewrite length_app, IH. clear IH.
  rewrite filter_length_map. simpl.
  rewrite (filter_ext _ (fun r => (row_id r =? row_id R)%Z && (h qn && observed r j))).
  2: { intros r. unfold observed. rewrite andb_assoc. reflexivity. }
  rewrite filter_andb, (filter_rows_by_id _ _ Hnd HR). simpl.
  destruct (h qn && observed R j); reflexivity.
Qed.

Lemma combine_seq_count (f : nat -> bool) (qs : list string) (s : nat) :
  List.length (filter (fun jq => f (fst jq)) (combine (seq s (List.length qs)) qs)) =
  List.length (filter f (seq s (List.length qs))).
Proof.
  revert s. induction qs as [|q t IH]; intros s; simpl; [reflexivity|].
  destruct (f s); simpl; rewrite IH; reflexivity.
Qed.

Lemma combine_seq_count_question (f : nat -> bool) (qs : list string) (s j : nat) (q : string) :
  NoDup qs -> nth_error qs j = Some q ->
  List.length (filter (fun jq => String.eqb (snd jq) q && f (fst jq))
                 (combine (seq s (List.length qs)) qs)) =
  (if f (s + j)%nat then 1 else 0)%nat.
Proof.
  assert (Hout : forall t s', ~ In q t ->
            List.length (filter (fun jq => String.eqb (snd jq) q && f (fst jq))
                           (combine (seq s' (List.length t)) t)) = 0%nat).
  { induction t as [|q' t IH]; intros s' Hn; simpl; [reflexivity|].
    destruct (String.eqb_spec q' q) as [E|_].
    - exfalso. apply Hn. left. exact E.
    - apply IH. intros Hin. apply Hn. right. exact Hin. }
  revert s j. induction qs as [|q0 t IH]; intros s j Hnd Hj; [destruct j; discriminate|].
  inversion Hnd as [|? ? Hnot Hnd']; subst. simpl.
  destruct j as [|j]; simpl in Hj.
  - injection Hj as <-. rewrite String.eqb_refl, Nat.add_0_r. simpl.
    destruct (f s); simpl; rewrite (Hout t (S s) Hnot); reflexivity.
  - destruct (String.eqb_spec q0 q) as [E|_].
    + exfalso. apply Hnot. rewrite E. exact (nth_error_In _ _ Hj).
    + simpl. rewrite (IH (S s) j Hnd' Hj). rewrite Nat.add_succ_r. reflexivity.
Qed.

(** C7: with distinct respondent ids and distinct question names, every
    observed cell of a respondent becomes exactly one row of the long
    table and every missing cell none: the rows of respondent [R] are as
    many as its observed cells (one observed cell gives one row, no
    observed cell gives no row), and the builder is a total function. *)
Theorem builder_rows_per_cell (W : Wide) (R : Row) :
  NoDup (map row_id (w_rows W)) -> NoDup (w_questions W) -> In R (w_rows W) ->
  (forall j qn, nth_error (w_questions W) j = Some qn ->
     List.length (filter (fun l => (l_id l =? row_id R)%Z && String.eqb (l_question l) qn)
                    (long_q W)) =
     (if observed R j then 1 else 0)%nat) /\
  List.length (filter (fun l => (l_id l =? row_id R)%Z) (long_q W)) =
  List.length (filter (observed R) (seq 0 (List.length (w_questions W)))).
Proof.
  intros Hid Hq HR. split.
  - intros j qn Hj.
    rewrite (long_q_count W (fun i q => (i =? row_id R)%Z && String.eqb q qn)).
    rewrite (melt_count_respondent W R (fun q => String.eqb q qn) Hid HR).
    exact (combine_seq_count_question (observed R) _ 0 j qn Hq Hj).
  - rewrite (filter_ext (fun l => (l_id l =? row_id R)%Z)
                        (fun l => (fun i (q : string) => (i =? row_id R)%Z && true)
                                    (l_id l) (l_question l)))
      by (intros l; symmetry; apply andb_true_r).
    rewrite (long_q_count W (fun i (q : string) => (i =? row_id R)%Z && true)).
    rewrite (melt_count_respondent W R (fun _ => true) Hid HR).
    exact (combine_seq_count (observed R) (w_questions W) 0).
Qed.

Lemma builder_rows_per_cell_witness :
  NoDup (map row_id (w_rows W_ex)) /\ NoDup (w_questions W_ex) /\
  In (mkRow 3 1972 [None; Some true]) (w_rows W_ex) /\
  List.length (filter (fun l => (l_id l =? 3)%Z && String.eqb (l_question l) "cappun")
                 (long_q W_ex)) = 1%nat /\
  List.length (filter (fun l => (l_id l =? 3)%Z) (long_q W_ex)) = 1%nat.
Proof.
  assert (H1 : NoDup (map row_id (w_rows W_ex))).
  { simpl. repeat constructor; simpl; intuition discriminate. }
  assert (H2 : NoDup (w_questions W_ex)).
  { simpl. repeat constructor; simpl; intuition discriminate. }
  assert (H3 : In (mkRow 3 1972 [None; Some true]) (w_rows W_ex)) by (simpl; tauto).
  destruct (builder_rows_per_cell W_ex _ H1 H2 H3) as [Hc Hr].
  split; [exact H1|]. split; [exact H2|]. split; [exact H3|]. split.
  - exact (Hc 1%nat "cappun" eq_refl).
  - exact Hr.
Defined.

(* ================================================================== *)
(** * Further properties of the notebook *)

(* ------------------------------------------------------------------ *)
(** ** [download] *)

Lemma mem_In (k : string) (ks : list string) : mem k ks = true <-> In k ks.
Proof.
  unfold mem. rewrite existsb_exists. split.
  - intros [k' [Hin E]]. apply String.eqb_eq in E. subst. exact Hin.
  - intros Hin. exists k. split; [exact Hin | apply String.eqb_refl].
Qed.

Lemma list_ascii_of_string_app' (s1 s2 : string) :
  list_ascii_of_string (s1 ++ s2) = (list_ascii_of_string s1 ++ list_ascii_of_string s2)%list.
Proof. induction s1 as [|c t IH]; simpl; [reflexivity|]. rewrite IH. reflexivity. Qed.

Lemma basename_from_no_slash (s acc : string) :
  ~ In "/"%char (list_ascii_of_string acc) ->
  ~ In "/"%char (list_ascii_of_string (basename_from s acc)).
Proof.
  revert acc. induction s as [|c t IH]; intros acc Hacc; simpl; [exact Hacc|].
  destruct (Ascii.eqb_spec c "/"%char) as [E|E].
  - apply IH. simpl. tauto.
  - apply IH. rewrite list_ascii_of_string_app'. simpl. rewrite in_app_iff. simpl.
    intros [H|[H|H]]; [exact (Hacc H) | exact (E H) | exact H].
Qed.

(** [download] returns [basename(url)], a name without ['/']; every file
    that existed before is still there afterwards, and when the name is
    not empty a file of that name exists.  When the name is empty
    (a URL ending in ['/']) every call fetches the URL again. *)
Theorem download_result (url : string) (fs : FS) :
  fst (download url fs) = basename url /\
  ~ In "/"%char (list_ascii_of_string (fst (download url fs))) /\
  incl (fs_files fs) (fs_files (snd (download url fs))) /\
  (basename url <> EmptyString -> In (basename url) (fs_files (snd (download url fs)))) /\
  (basename url = EmptyString -> fs_fetched (snd (download url fs)) = (fs_fetched fs ++ [url])%list).
Proof.
  assert (Hns : ~ In "/"%char (list_ascii_of_string (basename url)))
    by (apply basename_from_no_slash; simpl; tauto).
  unfold download, exists_file.
  destruct (String.eqb_spec (basename url) EmptyString) as [He|Hne]; simpl;
    [|destruct (mem (basename url) (fs_files fs)) eqn:E; simpl; [apply mem_In in E|]];
    repeat split; try assumption; try reflexivity;
    first [ apply incl_refl | apply incl_tl, incl_refl
          | intros H; first [contradiction | left; reflexivity | assumption] ].
Qed.

Lemma download_result_witness :
  basename "http://a.org/x/" = EmptyString /\
  fs_fetched (snd (download "http://a.org/x/" (mkFS [] ["http://a.org/x/"]))) =
  ["http://a.org/x/"; "http://a.org/x/"].
Proof.
  assert (H : basename "http://a.org/x/" = EmptyString) by reflexivity.
  split; [exact H|].
  exact (proj2 (proj2 (proj2 (proj2 (download_result "http://a.org/x/"
                                      (mkFS [] ["http://a.org/x/"]))))) H).
Defined.

(** Once [download] has run for a URL whose base name is not empty, a
    later [download] of any URL with the same base name (the same URL in
    particular) fetches nothing and changes nothing: the file already on
    disk is returned, even when it was fetched from a different URL. *)
Theorem download_same_basename_no_fetch (url1 url2 : string) (fs : FS) :
  basename url1 <> EmptyString ->
  basename url2 = basename url1 ->
  download url2 (snd (download url1 fs)) = (basename url1, snd (download url1 fs)).
Proof.
  intros Hne Hb.
  pose proof (proj1 (proj2 (proj2 (proj2 (download_result url1 fs)))) Hne) as Hin.
  unfold download at 1, exists_file. rewrite Hb.
  apply mem_In in Hin. rewrite Hin.
  destruct (String.eqb_spec (basename url1) EmptyString) as [E|_]; [contradiction|].
  reflexivity.
Qed.

Lemma download_same_basename_no_fetch_witness :
  basename "http://a.org/x/data.hdf" <> EmptyString /\
  basename "http://b.org/data.hdf" = basename "http://a.org/x/data.hdf" /\
  download "http://b.org/data.hdf" (snd (download "http://a.org/x/data.hdf" (mkFS [] []))) =
  ("data.hdf", mkFS ["data.hdf"] ["http://a.org/x/data.hdf"]).
Proof.
  assert (H1 : basename "http://a.org/x/data.hdf" <> EmptyString) by discriminate.
  split; [exact H1|]. split; [reflexivity|].
  exact (download_same_basename_no_fetch "http://a.org/x/data.hdf" "http://b.org/data.hdf"
           (mkFS [] []) H1 eq_refl).
Defined.

(* ------------------------------------------------------------------ *)
(** ** Birth-cohort decades *)

Lemma cohort10_some (c : Z) :
  cohort10 (Some c) =
  if ((1889 <? c) && (c <=? 2009))%Z then Some (c - (c - 1890) mod 10)%Z else None.
Proof.
  unfold cohort10.
  change bins with [1889; 1899; 1909; 1919; 1929; 1939; 1949; 1959; 1969; 1979; 1989; 1999; 2009]%Z.
  change labels with [1890; 1900; 1910; 1920; 1930; 1940; 1950; 1960; 1970; 1980; 1990; 2000]%Z.
  cbn [cut_from].
  destruct ((1889 <? c) && (c <=? 2009))%Z eqn:Hr;
    [apply andb_true_iff in Hr as [Hr1 Hr2] | apply andb_false_iff in Hr];
  repeat match goal with
  | |- context [if (?a <? ?x)%Z && (?x <=? ?b)%Z then _ else _] =>
      let H := fresh "Hc" in
      destruct ((a <? x) && (x <=? b))%Z eqn:H;
      [apply andb_true_iff in H as [? ?] | apply andb_false_iff in H]
  end;
  try reflexivity; try (f_equal; Z.div_mod_to_equations; lia); exfalso; lia.
Qed.


(** After [pd.cut] and [dropna(subset=['cohort10'])], the kept rows are
    exactly those whose cohort is a birth year from 1890 to 2009 (cohorts
    up to 1889, from 2010 on, or missing are dropped), each with its
    decade label [l]: a multiple of 10 with [l <= cohort <= l + 9]. *)
Theorem gss_cohort10_rows {A : Type} (rows : list (option Z * A)) (l : Z) (a : A) :
  In (l, a) (gss_cohort10 rows) <->
  exists c, In (Some c, a) rows /\ (1890 <= c <= 2009)%Z /\
            (l mod 10 = 0)%Z /\ (l <= c <= l + 9)%Z.
Proof.
  unfold gss_cohort10. rewrite in_flat_map. split.
  - intros [[co a'] [Hin Hl]]. destruct co as [c|]; [|contradiction].
    rewrite cohort10_some in Hl.
    destruct ((1889 <? c) && (c <=? 2009))%Z eqn:Hr; [|contradiction].
    apply andb_true_iff in Hr as [H1 H2]. apply Z.ltb_lt in H1. apply Z.leb_le in H2.
    destruct Hl as [Hl|[]]. injection Hl as <- <-.
    exists c. split; [exact Hin|]. split; [lia|].
    split; Z.div_mod_to_equations; lia.
  - intros [c [Hin [Hc [Hm Hb]]]]. exists (Some c, a). split; [exact Hin|].
    rewrite cohort10_some.
    replace ((1889 <? c) && (c <=? 2009))%Z with true
      by (symmetry; apply andb_true_iff; split; [apply Z.ltb_lt | apply Z.leb_le]; lia).
    left. f_equal. f_equal. Z.div_mod_to_equations; lia.
Qed.

Example gss_cohort10_ex :
  gss_cohort10 [(Some 1889%Z, 0%nat); (Some 1890%Z, 1%nat); (Some 2009%Z, 2%nat);
                (Some 2010%Z, 3%nat); (None, 4%nat)] =
  [(1890%Z, 1%nat); (2000%Z, 2%nat)].
Proof. reflexivity. Qed.

(* ------------------------------------------------------------------ *)
(** ** The subsample loop *)

Lemma ref_in_sample_In (idxs : list Z) :
  ref_in_sample idxs = true <-> In (fst REF_IDs) idxs /\ In (snd REF_IDs) idxs.
Proof.
  unfold ref_in_sample. rewrite andb_true_iff, !existsb_exists.
  split.
  - intros [[x [Hx E1]] [y [Hy E2]]]. apply Z.eqb_eq in E1, E2. subst. tauto.
  - intros [H1 H2]. split; [exists (fst REF_IDs) | exists (snd REF_IDs)];
      (split; [assumption | apply Z.eqb_refl]).
Qed.

(** The subsample loop stops at the first sample holding both reference
    ids (5034 and 309) and keeps that sample: starting from sample [k]
    with at most [fuel] attempts, it returns sample [k'] exactly when
    [k'] is among the attempts, sample [k'] holds both ids and no earlier
    attempt does. *)
Theorem sample_until_first_hit (fuel : nat) (draw : nat -> list Z) (k k' : nat) (s : list Z) :
  sample_until fuel draw k = Some (k', s) <->
  (k <= k' < k + fuel)%nat /\ s = draw k' /\
  In (fst REF_IDs) s /\ In (snd REF_IDs) s /\
  (forall j, (k <= j < k')%nat -> ~ (In (fst REF_IDs) (draw j) /\ In (snd REF_IDs) (draw j))).
Proof.
  revert k. induction fuel as [|f IH]; intros k; simpl.
  - split; [discriminate | lia].
  - destruct (ref_in_sample (draw k)) eqn:E.
    + split.
      * intros H. injection H as <- <-. apply ref_in_sample_In in E as [E1 E2].
        repeat split; auto; try lia.
      * intros [Hk [-> [_ [_ Hj]]]].
        destruct (Nat.eq_dec k k') as [<-|Hne]; [reflexivity|].
        exfalso. apply (Hj k); [lia|]. apply ref_in_sample_In. exact E.
    + rewrite IH. split.
      * intros [Hk [Hs [H1 [H2 Hj]]]]. repeat split; auto; try lia.
        intros j Hj'. destruct (Nat.eq_dec j k) as [->|Hne].
        -- rewrite <- ref_in_sample_In, E. discriminate.
        -- apply Hj. lia.
      * intros [Hk [Hs [H1 [H2 Hj]]]].
        assert (k <> k') by (intros <-; subst s;
                             rewrite (proj2 (ref_in_sample_In _) (conj H1 H2)) in E; discriminate).
        repeat split; auto; try lia.
        intros j Hj'. apply Hj. lia.
Qed.

Lemma sample_until_first_hit_witness :
  sample_until 5 (fun k => match k with 0%nat => [5034%Z] | 1%nat => [309%Z; 7%Z]
                                       | _ => [309%Z; 5034%Z] end) 0 = Some (2%nat, [309%Z; 5034%Z]).
Proof.
  apply (proj2 (sample_until_first_hit 5 _ 0 2 [309%Z; 5034%Z])).
  split; [lia|]. split; [reflexivity|]. split; [simpl; tauto|]. split; [simpl; tauto|].
  intros j Hj. destruct j as [|[|j]]; simpl; [| |lia].
  - intros [_ [H|[]]]. discriminate.
  - intros [[H|[H|[]]] _]; discriminate.
Defined.

(* ------------------------------------------------------------------ *)
(** ** [plot_questions_prob]: the panels *)

Lemma skipn_nth_error {A : Type} (s : list A) (a : nat) (x : A) :
  nth_error s a = Some x -> skipn a s = x :: skipn (S a) s.
Proof.
  revert a. induction s as [|y t IH]; intros [|a] H; simpl in *; try discriminate.
  - injection H as ->. reflexivity.
  - apply IH. exact H.
Qed.

Lemma py_index_past_end {B : Type} (xs : list B) (i : nat) :
  (List.length xs <= i)%nat -> py_index xs (Z.of_nat i) = None.
Proof.
  intros Hi. unfold py_index.
  replace ((0 <=? Z.of_nat i)%Z && (Z.of_nat i <? Z.of_nat (List.length xs))%Z) with false
    by (symmetry; apply andb_false_iff; right; apply Z.ltb_ge; lia).
  replace ((- Z.of_nat (List.length xs) <=? Z.of_nat i)%Z && (Z.of_nat i <? 0)%Z) with false
    by (symmetry; apply andb_false_iff; right; apply Z.ltb_ge; lia).
  reflexivity.
Qed.

Lemma traverse_py_index {A : Type} (s : list A) (a n : nat) :
  (a <= List.length s)%nat ->
  traverse_opt (fun qi => py_index s (Z.of_nat qi)) (seq a n) =
  if (a + n <=? List.length s)%nat then Some (firstn n (skipn a s)) else None.
Proof.
  revert a. induction n as [|n IH]; intros a Ha; simpl.
  - replace (a + 0 <=? List.length s)%nat with true by (symmetry; apply Nat.leb_le; lia).
    reflexivity.
  - destruct (Nat.leb_spec (a + S n) (List.length s)) as [Hle|Hgt].
    + rewrite IH by lia. rewrite py_index_in_range by lia.
      replace (S a + n <=? List.length s)%nat with true by (symmetry; apply Nat.leb_le; lia).
      destruct (nth_error s a) as [x|] eqn:Ex.
      * rewrite (skipn_nth_error s a x Ex). reflexivity.
      * exfalso. apply nth_error_None in Ex. lia.
    + destruct (Nat.lt_ge_cases a (List.length s)) as [Hlt|Hge].
      * rewrite IH by lia.
        replace (S a + n <=? List.length s)%nat with false by (symmetry; apply Nat.leb_gt; lia).
        destruct (py_index s (Z.of_nat a)); reflexivity.
      * rewrite py_index_past_end by exact Hge. reflexivity.
Qed.

(** [plot_questions_prob] shows the first 15 questions of [sorted_p], one
    per panel of its 3 x 5 grid, when there are at least 15 questions
    (further questions are not shown); with fewer than 15 questions the
    panel loop raises [IndexError]. *)
Theorem plot_panels_first_15 {A : Type} (sorted_p : list A) :
  plot_panels sorted_p =
  if (15 <=? List.length sorted_p)%nat then Some (firstn 15 sorted_p) else None.
Proof. unfold plot_panels. rewrite traverse_py_index by lia. reflexivity. Qed.

(* ------------------------------------------------------------------ *)
(** ** The long table: contents and order *)

Lemma In_ins_by_id (x y : Z * string * bool) (l : list (Z * string * bool)) :
  In x (ins_by_id y l) <-> x = y \/ In x l.
Proof.
  induction l as [|z t IH]; simpl; [intuition congruence|].
  destruct y as [[i qi] ai], z as [[j qj] aj]. simpl in IH |- *.
  destruct (i <=? j)%Z; simpl; [intuition congruence|]. rewrite IH. intuition congruence.
Qed.

Lemma In_sort_by_id (x : Z * string * bool) (l : list (Z * string * bool)) :
  In x (sort_by_id l) <-> In x l.
Proof.
  induction l as [|y t IH]; simpl; [tauto|]. rewrite In_ins_by_id, IH. intuition congruence.
Qed.

Lemma In_dropna (i : Z) (qn : string) (a : bool) (m : list (Z * string * option bool)) :
  In (i, qn, a) (dropna m) <-> In (i, qn, Some a) m.
Proof.
  unfold dropna. rewrite in_flat_map. split.
  - intros [[[i' q'] c] [Hin H]]. destruct c as [a'|]; [|contradiction].
    destruct H as [H|[]]. injection H as -> -> ->. exact Hin.
  - intros H. exists (i, qn, Some a). split; [exact H | left; reflexivity].
Qed.

Lemma In_combine_seq (qs : list string) (s j : nat) (q : string) :
  In (j, q) (combine (seq s (List.length qs)) qs) <-> (s <= j)%nat /\ nth_error qs (j - s) = Some q.
Proof.
  revert s. induction qs as [|q0 t IH]; intros s; simpl.
  - split; [tauto|]. intros [_ H]. destruct (j - s)%nat; discriminate.
  - rewrite IH. split.
    + intros [H|[Hs H]].
      * injection H as <- <-. rewrite Nat.sub_diag. split; [lia|reflexivity].
      * split; [lia|]. replace (j - s)%nat with (S (j - S s)) by lia. exact H.
    + intros [Hs H]. destruct (Nat.eq_dec j s) as [->|Hne].
      * left. rewrite Nat.sub_diag in H. simpl in H. injection H as <-. reflexivity.
      * right. split; [lia|]. replace (j - s)%nat with (S (j - S s)) in H by lia. exact H.
Qed.

Lemma In_melt (W : Wide) (i : Z) (qn : string) (c : option bool) :
  In (i, qn, c) (melt W) <->
  exists R j, In R (w_rows W) /\ nth_error (w_questions W) j = Some qn /\
              i = row_id R /\ c = cell R j.
Proof.
  unfold melt. rewrite in_flat_map. split.
  - intros [[j q] [Hjq Hin]]. apply In_combine_seq in Hjq as [_ Hj]. rewrite Nat.sub_0_r in Hj.
    apply in_map_iff in Hin as [R [HR Hr]]. injection HR as <- <- <-.
    exists R, j. auto.
  - intros [R [j [HR [Hj [-> ->]]]]]. exists (j, qn). split.
    + apply In_combine_seq. rewrite Nat.sub_0_r. split; [lia | exact Hj].
    + apply in_map_iff. exists R. auto.
Qed.

Lemma row_id_unique (rows : list Row) (R R' : Row) :
  NoDup (map row_id rows) -> In R rows -> In R' rows -> row_id R = row_id R' -> R = R'.
Proof.
  induction rows as [|r t IH]; simpl; [tauto|]. intros Hnd HR HR' E.
  inversion Hnd as [|? ? Hnot Hnd']; subst.
  destruct HR as [<-|HR], HR' as [<-|HR']; auto.
  - exfalso. apply Hnot. rewrite E. apply in_map. exact HR'.
  - exfalso. apply Hnot. rewrite <- E. apply in_map. exact HR.
Qed.

Lemma year_of_row (W : Wide) (R : Row) :
  NoDup (map row_id (w_rows W)) -> In R (w_rows W) -> year_of W (row_id R) = row_year R.
Proof.
  intros Hnd HR. unfold year_of.
  destruct (find (fun r => row_id r =? row_id R)%Z (w_rows W)) as [r|] eqn:E.
  - apply find_some in E as [Hr Hid]. apply Z.eqb_eq in Hid.
    rewrite (row_id_unique _ r R Hnd Hr HR Hid). reflexivity.
  - exfalso. pose proof (find_none _ _ E R HR) as H. simpl in H.
    rewrite Z.eqb_refl in H. discriminate.
Qed.

Lemma In_long_q (W : Wide) (l : LongRow) :
  In l (long_q W) <->
  exists R j, In R (w_rows W) /\ row_id R = l_id l /\
              nth_error (w_questions W) j = Some (l_question l) /\
              cell R j = Some (l_answer l) /\ l_year l = year_of W (l_id l).
Proof.
  unfold long_q. rewrite in_map_iff. split.
  - intros [[[i qn] a] [<- Hin]]. apply In_sort_by_id, In_dropna, In_melt in Hin.
    destruct Hin as [R [j [HR [Hj [-> Hc]]]]]. exists R, j. simpl. auto.
  - intros [R [j [HR [Hid [Hj [Hc Hy]]]]]]. exists (l_id l, l_question l, l_answer l). split.
    + destruct l; simpl in *. rewrite Hy. reflexivity.
    + apply In_sort_by_id, In_dropna, In_melt. exists R, j. auto.
Qed.

(** With distinct respondent ids, the long table holds exactly the
    observed cells: a row [(id, question, answer, year)] is in it if and
    only if the wide table has a respondent with that id whose cell in
    that question column holds that answer, and the year is that
    respondent's survey year. *)
Theorem long_q_observed_cells (W : Wide) (l : LongRow) :
  NoDup (map row_id (w_rows W)) ->
  In l (long_q W) <->
  exists R j, In R (w_rows W) /\ row_id R = l_id l /\
              nth_error (w_questions W) j = Some (l_question l) /\
              cell R j = Some (l_answer l) /\ l_year l = row_year R.
Proof.
  intros Hnd. rewrite In_long_q. split.
  - intros [R [j [HR [Hid [Hj [Hc Hy]]]]]]. exists R, j.
    repeat split; auto. rewrite Hy, <- Hid. apply year_of_row; assumption.
  - intros [R [j [HR [Hid [Hj [Hc Hy]]]]]]. exists R, j.
    repeat split; auto. rewrite Hy, <- Hid. symmetry. apply year_of_row; assumption.
Qed.

Lemma long_q_observed_cells_witness :
  NoDup (map row_id (w_rows W_ex)) /\
  In (mkLong 3 "cappun" true 1972) (long_q W_ex).
Proof.
  assert (H1 : NoDup (map row_id (w_rows W_ex))).
  { simpl. repeat constructor; simpl; intuition discriminate. }
  split; [exact H1|].
  apply (proj2 (long_q_observed_cells W_ex (mkLong 3 "cappun" true 1972) H1)).
  exists (mkRow 3 1972 [None; Some true]), 1%nat. simpl. repeat split; auto.
Defined.

Lemma HdRel_ins_by_id (y x : Z * string * bool) (l : list (Z * string * bool)) :
  HdRel (fun a b => key3 a <= key3 b)%Z y l -> (key3 y <= key3 x)%Z ->
  HdRel (fun a b => key3 a <= key3 b)%Z y (ins_by_id x l).
Proof.
  intros Hd Hyx. destruct l as [|z t]; simpl.
  - constructor. exact Hyx.
  - destruct x as [[i qi] ai], z as [[j qj] aj].
    destruct (i <=? j)%Z; constructor; [exact Hyx|]. inversion Hd. assumption.
Qed.

Lemma ins_by_id_sorted (x : Z * string * bool) (l : list (Z * string * bool)) :
  Sorted (fun a b => key3 a <= key3 b)%Z l ->
  Sorted (fun a b => key3 a <= key3 b)%Z (ins_by_id x l).
Proof.
  induction l as [|y t IH]; intros Hs; simpl.
  - repeat constructor.
  - inversion Hs as [|? ? Ht Hd]; subst.
    destruct x as [[i qi] ai] eqn:Ex, y as [[j qj] aj] eqn:Ey.
    destruct (Z.leb_spec i j) as [Hij|Hij].
    + constructor; [exact Hs|]. constructor. unfold key3. simpl. exact Hij.
    + constructor; [apply IH; exact Ht|].
      apply HdRel_ins_by_id; [exact Hd|]. unfold key3. simpl. lia.
Qed.

Lemma Sorted_map_key {B : Type} (key : B -> Z) (l : list B) :
  Sorted (fun a b => key a <= key b)%Z l -> Sorted Z.le (map key l).
Proof.
  induction 1 as [|x t Ht IH Hd]; simpl; constructor; [exact IH|].
  destruct Hd; simpl; constructor. assumption.
Qed.

(** [sort_values(by="id")]: the long table is ordered by respondent id. *)
Theorem long_q_sorted_by_id (W : Wide) : Sorted Z.le (map l_id (long_q W)).
Proof.
  unfold long_q. rewrite map_map.
  rewrite (map_ext _ key3) by (intros [[i qn] a]; reflexivity).
  apply Sorted_map_key. unfold sort_by_id.
  induction (dropna (melt W)) as [|x t IH]; simpl; [constructor|].
  apply ins_by_id_sorted. exact IH.
Qed.

(* ------------------------------------------------------------------ *)
(** ** [pd.Categorical] over integers: order and density of the codes *)

Lemma StronglySorted_nth_lt (l : list Z) (i j : nat) :
  StronglySorted Z.lt l -> (i < j < List.length l)%nat -> (nth i l 0 < nth j l 0)%Z.
Proof.
  intros Hs. revert i j. induction Hs as [|a t Ht IH Hf]; intros i j Hij; simpl in *; [lia|].
  destruct i as [|i], j as [|j]; try lia.
  - rewrite Forall_forall in Hf. apply Hf. apply nth_In. lia.
  - apply IH. lia.
Qed.

Lemma StronglySorted_NoDup (l : list Z) : StronglySorted Z.lt l -> NoDup l.
Proof.
  induction 1 as [|a t Ht IH Hf]; constructor; [|exact IH].
  intros Hin. rewrite Forall_forall in Hf. specialize (Hf a Hin). lia.
Qed.

Lemma code_of_categories_nth (vs : list Z) (x : Z) :
  In x vs ->
  exists i, code_of Z.eqb (categories Z.eqb Z.ltb vs) x = Z.of_nat i /\
            (i < List.length (categories Z.eqb Z.ltb vs))%nat /\
            nth i (categories Z.eqb Z.ltb vs) 0%Z = x.
Proof.
  intros Hx. apply (proj2 (in_categories Z.eqb Z.ltb Z.eqb_spec x vs)) in Hx.
  destruct (index_of_in Z.eqb Z.ltb Z.eqb_spec x _ Hx) as [i [Hi Hn]].
  exists i. unfold code_of. rewrite Hi. split; [reflexivity|].
  split; [apply nth_error_Some; congruence|].
  apply nth_error_nth. exact Hn.
Qed.

(** A [pd.Categorical] of integers (respondent ids, survey years) codes
    its values in their numeric order: for two encoded values,
    [x < y] exactly when the code of [x] is below the code of [y] (and
    equal values share a code).  In particular the year codes used by the
    trend terms increase with the calendar year. *)
Theorem categorical_codes_monotone (vs : list Z) (x y : Z) :
  In x vs -> In y vs ->
  ((x < y)%Z <-> (code_of Z.eqb (categories Z.eqb Z.ltb vs) x
                  < code_of Z.eqb (categories Z.eqb Z.ltb vs) y)%Z) /\
  (x = y <-> code_of Z.eqb (categories Z.eqb Z.ltb vs) x
             = code_of Z.eqb (categories Z.eqb Z.ltb vs) y).
Proof.
  intros Hx Hy.
  destruct (code_of_categories_nth vs x Hx) as [i [Ci [Hi Ni]]].
  destruct (code_of_categories_nth vs y Hy) as [j [Cj [Hj Nj]]].
  rewrite Ci, Cj. pose proof (categories_sorted vs) as Hs.
  split; split.
  - intros Hxy. destruct (Nat.lt_total i j) as [Hl|[He|Hg]]; [lia| |].
    + subst i. rewrite Ni in Nj. lia.
    + pose proof (StronglySorted_nth_lt _ j i Hs (conj Hg Hi)). lia.
  - intros Hij. rewrite <- Ni, <- Nj. apply StronglySorted_nth_lt; [exact Hs | lia].
  - intros <-. destruct (Nat.lt_total i j) as [Hl|[He|Hg]]; [| lia |].
    + pose proof (StronglySorted_nth_lt _ i j Hs (conj Hl Hj)). lia.
    + pose proof (StronglySorted_nth_lt _ j i Hs (conj Hg Hi)). lia.
  - intros E. apply Nat2Z.inj in E. subst j. congruence.
Qed.

Lemma categorical_codes_monotone_witness :
  In 1990%Z [1990; 1972; 2000; 1972]%Z /\ In 2000%Z [1990; 1972; 2000; 1972]%Z /\
  (code_of Z.eqb (categories Z.eqb Z.ltb [1990; 1972; 2000; 1972]%Z) 1990
   < code_of Z.eqb (categories Z.eqb Z.ltb [1990; 1972; 2000; 1972]%Z) 2000)%Z.
Proof.
  assert (H1 : In 1990%Z [1990; 1972; 2000; 1972]%Z) by (simpl; tauto).
  assert (H2 : In 2000%Z [1990; 1972; 2000; 1972]%Z) by (simpl; tauto).
  split; [exact H1|]. split; [exact H2|].
  apply (proj1 (proj1 (categorical_codes_monotone _ _ _ H1 H2))). lia.
Defined.

(** The codes of a [pd.Categorical] of integers are dense: every code
    from [0] to the number of categories minus one is the code of some
    encoded value (no coordinate of a model built on these codes is left
    without data). *)
Theorem categorical_codes_dense (vs : list Z) (k : nat) :
  (k < List.length (categories Z.eqb Z.ltb vs))%nat ->
  exists v, In v vs /\ code_of Z.eqb (categories Z.eqb Z.ltb vs) v = Z.of_nat k.
Proof.
  intros Hk. set (cats := categories Z.eqb Z.ltb vs) in *.
  exists (nth k cats 0%Z).
  assert (Hin : In (nth k cats 0%Z) cats) by (apply nth_In; exact Hk).
  split; [apply (proj1 (in_categories Z.eqb Z.ltb Z.eqb_spec _ vs)); exact Hin|].
  destruct (index_of_in Z.eqb Z.ltb Z.eqb_spec _ _ Hin) as [i [Hi Hn]].
  unfold code_of. rewrite Hi. f_equal.
  pose proof (StronglySorted_NoDup _ (categories_sorted vs)) as Hnd.
  apply (proj1 (NoDup_nth_error cats) Hnd i k).
  - apply nth_error_Some. congruence.
  - rewrite Hn. symmetry. apply nth_error_nth'. exact Hk.
Qed.

Lemma categorical_codes_dense_witness :
  (1 < List.length (categories Z.eqb Z.ltb [1990; 1972; 1990]%Z))%nat /\
  exists v, In v [1990; 1972; 1990]%Z /\
            code_of Z.eqb (categories Z.eqb Z.ltb [1990; 1972; 1990]%Z) v = 1%Z.
Proof.
  assert (H : (1 < List.length (categories Z.eqb Z.ltb [1990; 1972; 1990]%Z))%nat)
    by (vm_compute; lia).
  split; [exact H|]. exact (categorical_codes_dense _ 1 H).
Defined.

(* ------------------------------------------------------------------ *)
(** ** [sorted_years]: the survey year of each respondent *)

Lemma loc_all_none (s : list (Z * Z)) (keys : list Z) :
  loc_all s keys = None <-> exists k, In k keys /\ loc_key s k = None.
Proof.
  induction keys as [|k t IH]; simpl.
  - split; [discriminate | intros [k [[] _]]].
  - destruct (loc_key s k) as [v|] eqn:Ek; [destruct (loc_all s t) as [vs|] eqn:Et|].
    + split; [discriminate|]. intros [k' [[<-|Hk'] Hn]]; [congruence|].
      assert (H : Some vs = None) by (apply IH; exists k'; auto). discriminate.
    + split; [intros _|intros _; reflexivity].
      destruct (proj1 IH eq_refl) as [k' [Hk' Hn]]. exists k'. auto.
    + split; [intros _|intros _; reflexivity]. exists k. auto.
Qed.

Lemma loc_all_some (s : list (Z * Z)) (keys ys : list Z) :
  loc_all s keys = Some ys ->
  ys = map (fun k => match loc_key s k with Some v => v | None => 0%Z end) keys /\
  (forall k, In k keys -> exists v, loc_key s k = Some v).
Proof.
  revert ys. induction keys as [|k t IH]; intros ys; simpl.
  - intros H. injection H as <-. split; [reflexivity | intros _ []].
  - destruct (loc_key s k) as [v|] eqn:Ek; [|discriminate].
    destruct (loc_all s t) as [vs|] eqn:Et; [|discriminate].
    intros H. injection H as <-. destruct (IH vs eq_refl) as [-> Hall].
    split; [reflexivity|]. intros k' [<-|Hk']; [exists v; exact Ek | apply Hall; exact Hk'].
Qed.

Lemma loc_key_years_some (W : Wide) (i y : Z) :
  loc_key (years_series W) i = Some y ->
  exists R, In R (w_rows W) /\ has_missing (List.length (w_questions W)) R = true /\
            row_id R = i /\ row_year R = y.
Proof.
  unfold loc_key. destruct (find (fun kv => fst kv =? i)%Z (years_series W)) as [[k v]|] eqn:E;
    [|discriminate].
  intros H. injection H as <-. apply find_some in E as [Hin Hk]. simpl in Hk.
  apply Z.eqb_eq in Hk. subst k. unfold years_series in Hin.
  apply in_map_iff in Hin as [R [HR Hin]]. injection HR as <- <-.
  apply filter_In in Hin as [Hin Hm]. exists R. auto.
Qed.

Lemma loc_key_years_none (W : Wide) (i : Z) (R : Row) :
  loc_key (years_series W) i = None -> In R (w_rows W) -> row_id R = i ->
  has_missing (List.length (w_questions W)) R = false.
Proof.
  unfold loc_key. destruct (find (fun kv => fst kv =? i)%Z (years_series W)) as [[k v]|] eqn:E;
    [discriminate|].
  intros _ HR Hid. destruct (has_missing (List.length (w_questions W)) R) eqn:Hm; [|reflexivity].
  exfalso. assert (Hin : In (row_id R, row_year R) (years_series W)).
  { unfold years_series. apply in_map_iff. exists R. split; [reflexivity|].
    apply filter_In. auto. }
  pose proof (find_none _ _ E _ Hin) as H. simpl in H. rewrite Hid, Z.eqb_refl in H. discriminate.
Qed.

Lemma has_missing_false (n : nat) (R : Row) :
  has_missing n R = false <-> forall j, (j < n)%nat -> observed R j = true.
Proof.
  unfold has_missing. split.
  - intros H j Hj. destruct (observed R j) eqn:Eo; [reflexivity|].
    exfalso. assert (Ht : existsb (fun j => negb (observed R j)) (seq 0 n) = true).
    { apply existsb_exists. exists j. split; [apply in_seq; lia | rewrite Eo; reflexivity]. }
    congruence.
  - intros H. destruct (existsb (fun j => negb (observed R j)) (seq 0 n)) eqn:E; [|reflexivity].
    apply existsb_exists in E as [j [Hj Hn]]. apply in_seq in Hj.
    rewrite (H j) in Hn by lia. discriminate.
Qed.

Lemma observed_In_long_q (W : Wide) (R : Row) (j : nat) :
  In R (w_rows W) -> (j < List.length (w_questions W))%nat -> observed R j = true ->
  In (row_id R) (id_cats (long_q W)).
Proof.
  intros HR Hj Ho. unfold observed in Ho.
  destruct (cell R j) as [a|] eqn:Ec; [|discriminate].
  destruct (nth_error (w_questions W) j) as [qn|] eqn:Eq;
    [|apply nth_error_None in Eq; lia].
  unfold id_cats. apply (proj2 (in_categories Z.eqb Z.ltb Z.eqb_spec _ _)).
  apply in_map_iff. exists (mkLong (row_id R) qn a (year_of W (row_id R))).
  split; [reflexivity|]. apply In_long_q. exists R, j. simpl. auto.
Qed.

(** [sorted_years = years[id_cat.categories]] raises [KeyError] exactly
    when some respondent answered every question: [years] keeps only the
    rows with at least one missing answer, so a respondent with at least
    one answer (hence in [id_cat]) and no missing answer has no entry
    there.  Respondent ids are assumed distinct. *)
Theorem sorted_years_key_error (W : Wide) :
  NoDup (map row_id (w_rows W)) ->
  sorted_years W = None <->
  exists R, In R (w_rows W) /\
            (exists j, (j < List.length (w_questions W))%nat /\ observed R j = true) /\
            (forall j, (j < List.length (w_questions W))%nat -> observed R j = true).
Proof.
  intros Hnd. unfold sorted_years. rewrite loc_all_none. split.
  - intros [i [Hi Hn]]. unfold id_cats in Hi.
    apply (proj1 (in_categories Z.eqb Z.ltb Z.eqb_spec _ _)) in Hi.
    apply in_map_iff in Hi as [l [<- Hl]].
    apply In_long_q in Hl as [R [j [HR [Hid [Hj [Hc _]]]]]].
    exists R. split; [exact HR|]. split.
    + exists j. split; [apply nth_error_Some; congruence|]. unfold observed. rewrite Hc. reflexivity.
    + apply has_missing_false. apply (loc_key_years_none W (l_id l) R Hn HR Hid).
  - intros [R [HR [[j [Hj Ho]] Hall]]]. exists (row_id R).
    split; [exact (observed_In_long_q W R j HR Hj Ho)|].
    destruct (loc_key (years_series W) (row_id R)) as [y|] eqn:E; [|reflexivity].
    exfalso. apply loc_key_years_some in E as [R' [HR' [Hm [Hid _]]]].
    rewrite (row_id_unique _ R' R Hnd HR' HR Hid) in Hm.
    rewrite (proj2 (has_missing_false _ R) Hall) in Hm. discriminate.
Qed.

Lemma sorted_years_key_error_witness :
  NoDup (map row_id (w_rows W_ex)) /\ sorted_years W_ex = None.
Proof.
  assert (H1 : NoDup (map row_id (w_rows W_ex))).
  { simpl. repeat constructor; simpl; intuition discriminate. }
  split; [exact H1|].
  apply (proj2 (sorted_years_key_error W_ex H1)).
  exists (mkRow 7 1990 [Some true; Some false]). split; [simpl; tauto|]. split.
  - exists 0%nat. split; [simpl; lia | reflexivity].
  - intros j Hj. simpl in Hj. destruct j as [|[|j]]; [reflexivity | reflexivity | lia].
Defined.

(** When [sorted_years] exists it lists, in [id_cat] order, each
    respondent's survey year: it equals
    [long_q.groupby("id")["year"].first()], so [sorted_years_cat] (used by
    the resample simulations of [m3] and [m4]) has the same codes as
    [id_year_cat] (used by [m4]) and the same categories as [q_year_cat].
    Respondent ids are assumed distinct. *)
Theorem sorted_years_first_years (W : Wide) (ys : list Z) :
  NoDup (map row_id (w_rows W)) ->
  sorted_years W = Some ys ->
  ys = id_first_years (long_q W) /\
  sorted_years_codes ys = id_year_codes (long_q W) /\
  categories Z.eqb Z.ltb ys = q_year_cats (long_q W).
Proof.
  intros Hnd Hs. unfold sorted_years in Hs.
  destruct (loc_all_some _ _ _ Hs) as [Hys Hall].
  assert (Heq : ys = id_first_years (long_q W)).
  { rewrite Hys. unfold id_first_years. apply map_ext_in. intros i Hi.
    destruct (Hall i Hi) as [y Hy]. rewrite Hy.
    apply loc_key_years_some in Hy as [R [HR [_ [Hid Hyr]]]].
    unfold id_cats in Hi. apply (proj1 (in_categories Z.eqb Z.ltb Z.eqb_spec _ _)) in Hi.
    destruct (find_first_row _ _ Hi) as [l [Hf [Hl Hli]]]. rewrite Hf.
    rewrite (long_q_year W l Hl), Hli. subst i y. symmetry. apply year_of_row; assumption. }
  split; [exact Heq|]. split.
  - rewrite Heq. reflexivity.
  - rewrite Heq. exact (id_year_cats_eq W).
Qed.

Lemma sorted_years_first_years_witness :
  NoDup (map row_id (w_rows W_ex2)) /\ sorted_years W_ex2 = Some [1972%Z; 1990%Z] /\
  sorted_years_codes [1972%Z; 1990%Z] = id_year_codes (long_q W_ex2).
Proof.
  assert (H1 : NoDup (map row_id (w_rows W_ex2))).
  { simpl. repeat constructor; simpl; intuition discriminate. }
  assert (H2 : sorted_years W_ex2 = Some [1972%Z; 1990%Z]) by reflexivity.
  split; [exact H1|]. split; [exact H2|].
  exact (proj1 (proj2 (sorted_years_first_years W_ex2 _ H1 H2))).
Defined.

(* ------------------------------------------------------------------ *)
(** ** The likelihood of the observed table *)

Lemma bern_pmf_bounds (a : bool) (x : R) : 0 < bern_pmf a x < 1.
Proof. pose proof (invlogit_bounds x). unfold bern_pmf. destruct a; lra. Qed.

Lemma logit_p_in_coords (m : Model) (P : Params) (o : Obs) :
  logit_p m P o <> None <-> in_coords P o.
Proof.
  unfold logit_p, in_coords.
  destruct (py_index (p_e P) (o_r o)), (py_index (p_d P) (o_q o)); split; intros H;
    first [ split; discriminate
          | discriminate
          | exfalso; apply H; reflexivity
          | exfalso; destruct H as [H1 H2];
            first [apply H1; reflexivity | apply H2; reflexivity] ].
Qed.

(** In every model the likelihood of an observation table is defined
    exactly when every observation's codes resolve in the parameter
    vectors, and then it lies in (0, 1]: the Bernoulli-logit likelihood
    never vanishes, so every parameter point has a finite log-likelihood. *)
Theorem likelihood_defined_positive (m : Model) (P : Params) (T : list Obs) :
  (likelihood m P T = None <-> ~ Forall (in_coords P) T) /\
  (Forall (in_coords P) T -> exists l, likelihood m P T = Some l /\ 0 < l <= 1).
Proof.
  assert (Hpos : Forall (in_coords P) T -> exists l, likelihood m P T = Some l /\ 0 < l <= 1).
  { induction 1 as [|o t Ho Ht IH]; simpl.
    - exists 1. split; [reflexivity | lra].
    - destruct IH as [l [Hl Hb]]. rewrite Hl.
      destruct (logit_p m P o) as [x|] eqn:Ex; [|exfalso; apply (proj2 (logit_p_in_coords m P o) Ho Ex)].
      exists (bern_pmf (o_ans o) x * l). split; [reflexivity|].
      pose proof (bern_pmf_bounds (o_ans o) x). split; [apply Rmult_lt_0_compat; lra|].
      rewrite <- (Rmult_1_r 1). apply Rmult_le_compat; lra. }
  split; [|exact Hpos]. split.
  - intros Hn Hf. destruct (Hpos Hf) as [l [Hl _]]. congruence.
  - clear Hpos. induction T as [|o t IH]; simpl; intros Hn.
    + exfalso. apply Hn. constructor.
    + destruct (logit_p m P o) as [x|] eqn:Ex; [|reflexivity].
      assert (Ho : in_coords P o) by (apply (proj1 (logit_p_in_coords m P o)); congruence).
      rewrite IH; [reflexivity|]. intros Ht. apply Hn. constructor; assumption.
Qed.

Lemma likelihood_defined_positive_witness :
  Forall (in_coords (mkParams [0] [0] 1 0 0 0)) [mkObs 0 0 0 true] /\
  likelihood M1 (mkParams [0] [0] 1 0 0 0) [mkObs 0 0 0 true] = Some (/ 2 * 1).
Proof.
  assert (H : Forall (in_coords (mkParams [0] [0] 1 0 0 0)) [mkObs 0 0 0 true]).
  { constructor; [|constructor]. unfold in_coords. simpl. split; discriminate. }
  split; [exact H|].
  destruct (proj2 (likelihood_defined_positive M1 (mkParams [0] [0] 1 0 0 0) _) H) as [l [Hl _]].
  rewrite Hl. simpl in Hl. injection Hl as <-. unfold bern_pmf.
  replace (0 - 0) with 0 by ring. rewrite invlogit_0. reflexivity.
Defined.

(* ------------------------------------------------------------------ *)
(** ** Resample mode: the simulated [response_sum] *)

Lemma resample_sample_pp (sigma : R) (trend : option (list Z)) (n_r n_q : nat)
    (trace : Env) (noise : string -> nat -> R) :
  trace_val trace "response" = None ->
  exists lg,
    sample_pp (resample_nodes sigma trend n_r n_q) ["response_sum"] trace noise =
    [("response_sum", row_sums n_r n_q (bernoulli_logit_draw lg (noise "response")))].
Proof.
  intros Hr. unfold sample_pp, forward.
  destruct trend as [ys|].
  - fwd_red. destruct (trace_val trace "conservatism_year_effect");
    destruct (trace_val trace "d"), (trace_val trace "e"), (trace_val trace "logit_p");
    fwd_red; rewrite ?Hr; fwd_red;
    destruct (trace_val trace "response_sum"); fwd_red; eexists; reflexivity.
  - fwd_red.
    destruct (trace_val trace "d"), (trace_val trace "e"), (trace_val trace "logit_p");
    fwd_red; rewrite ?Hr; fwd_red;
    destruct (trace_val trace "response_sum"); fwd_red; eexists; reflexivity.
Qed.

Lemma bernoulli_logit_draw_01 (lg : Val) (z : nat -> R) (k : nat) :
  nth k (bernoulli_logit_draw lg z) 0 = 0 \/ nth k (bernoulli_logit_draw lg z) 0 = 1.
Proof.
  unfold bernoulli_logit_draw.
  destruct (Nat.lt_ge_cases k (List.length lg)) as [Hk|Hk].
  - rewrite nth_map_seq by exact Hk. destruct (Rlt_dec _ _); auto.
  - left. apply nth_overflow. rewrite length_map, length_seq. exact Hk.
Qed.

Lemma sum_01_nat (l : list R) :
  (forall x, In x l -> x = 0 \/ x = 1) ->
  exists k, (k <= List.length l)%nat /\ fold_right Rplus 0 l = INR k.
Proof.
  induction l as [|x t IH]; simpl; intros H.
  - exists 0%nat. split; [lia | reflexivity].
  - destruct IH as [k [Hk Hs]]; [intros y Hy; apply H; right; exact Hy|].
    rewrite Hs. destruct (H x (or_introl eq_refl)) as [->| ->].
    + exists k. split; [lia | ring].
    + exists (S k). split; [lia|]. rewrite S_INR. ring.
Qed.

(** In every resample-mode simulation ([pp1] .. [pp4]), when the
    posterior does not hold [response] (it is observed data, not a
    posterior variable), the simulated [response_sum] has one entry per
    respondent and each entry is a whole number of conservative answers
    between 0 and the number of questions. *)
Theorem resample_response_sum_counts (sigma : R) (trend : option (list Z)) (n_r n_q : nat)
    (trace : Env) (noise : string -> nat -> R) :
  trace_val trace "response" = None ->
  exists v,
    sample_pp (resample_nodes sigma trend n_r n_q) ["response_sum"] trace noise =
      [("response_sum", v)] /\
    List.length v = n_r /\
    (forall x, In x v -> exists k, (k <= n_q)%nat /\ x = INR k).
Proof.
  intros Hr. destruct (resample_sample_pp sigma trend n_r n_q trace noise Hr) as [lg Hs].
  eexists. split; [exact Hs|]. split.
  - unfold row_sums. rewrite length_map, length_seq. reflexivity.
  - intros x Hx. unfold row_sums in Hx. apply in_map_iff in Hx as [i [<- _]].
    destruct (sum_01_nat (map (fun j => mat_at (bernoulli_logit_draw lg (noise "response")) n_q i j)
                              (seq 0 n_q))) as [k [Hk Hsum]].
    + intros y Hy. apply in_map_iff in Hy as [j [<- _]]. unfold mat_at.
      apply bernoulli_logit_draw_01.
    + exists k. rewrite length_map, length_seq in Hk. split; [exact Hk | exact Hsum].
Qed.

Lemma resample_response_sum_counts_witness :
  trace_val [("d", [0]); ("e", [2]); ("conservatism_year_effect", [0])] "response" = None /\
  exists v,
    sample_pp (pp4_nodes [0%Z; 1%Z] 2 3) ["response_sum"]
      [("d", [0]); ("e", [2]); ("conservatism_year_effect", [0])] noise_seq =
      [("response_sum", v)] /\
    List.length v = 2%nat /\ (forall x, In x v -> exists k, (k <= 3)%nat /\ x = INR k).
Proof.
  assert (H : trace_val [("d", [0]); ("e", [2]); ("conservatism_year_effect", [0])] "response" = None)
    by reflexivity.
  split; [exact H|]. exact (resample_response_sum_counts 1 _ 2 3 _ noise_seq H).
Defined.
